(** * Per-base quality scores of Trycycler ([trycycler/base_scores.py])

    A shallow embedding of the scoring pipeline of [base_scores.py] and the
    properties of it that the specification states.

    Python integers are unbounded, so they are modelled by [Z].  Python lists
    are modelled by Rocq lists; reads and writes by index go through
    [getitem] and [setitem], which raise [IndexError] out of range and wrap a
    negative index around as Python does.  Exceptions are modelled by the
    [result] monad.  Calls to [log] only print and are left out.  Memory is
    taken as unbounded: no [MemoryError] is modelled. *)

From Stdlib Require Import ZArith Lia Ascii String.
From stdpp Require Import base tactics option list numbers gmap strings.

Local Open Scope Z_scope.

(** ** Exceptions *)

Inductive exn : Set :=
| IndexError
| AssertionError
| ValueError
| OverflowError.

Inductive result (A : Type) : Type :=
| Ok (a : A)
| Raise (e : exn).

Arguments Ok {A} a.
Arguments Raise {A} e.

#[global] Instance result_ret : MRet result := fun A a => Ok a.

#[global] Instance result_bind : MBind result := fun A B f m =>
  match m with
  | Ok a => f a
  | Raise e => Raise e
  end.

(** [assert cond] *)
Definition py_assert (cond : bool) : result unit :=
  if cond then Ok tt else Raise AssertionError.

(** Takes apart a hypothesis [H] that a sequence of binds returned [Ok]:
    each step returned [Ok] itself. *)
Ltac bind_ok H :=
  repeat
    match type of H with
    | (?m ≫= _) = Ok _ =>
        let E := fresh "E" in
        destruct m eqn:E; cbn [mbind result_bind] in H; [|discriminate H]
    end.

(** ** Python lists *)

(** The position a Python index [i] denotes in a list of length [n]:
    [0 <= i < n] is itself, [-n <= i < 0] counts from the end, and anything
    else is out of range. *)
Definition py_index (n : nat) (i : Z) : option nat :=
  if (0 <=? i) && (i <? Z.of_nat n) then Some (Z.to_nat i)
  else if (- Z.of_nat n <=? i) && (i <? 0) then Some (Z.to_nat (i + Z.of_nat n))
  else None.

(** [l[i]] *)
Definition getitem {A} (l : list A) (i : Z) : result A :=
  match py_index (length l) i with
  | Some k =>
      match l !! k with
      | Some x => Ok x
      | None => Raise IndexError
      end
  | None => Raise IndexError
  end.

(** [l[i] = x] *)
Definition setitem {A} (l : list A) (i : Z) (x : A) : result (list A) :=
  match py_index (length l) i with
  | Some k => Ok (<[k:=x]> l)
  | None => Raise IndexError
  end.

(** [[0] * n]: a negative [n] gives the empty list. *)
Definition zeros (n : Z) : list Z := replicate (Z.to_nat n) 0.

(** [sys.maxsize] of 64-bit CPython: no list is longer. *)
Definition sys_maxsize : Z := 2 ^ 63 - 1.

(** [[0] * n] with CPython's limit on the length of a list: for an [n]
    beyond [sys.maxsize] it raises [OverflowError].  Below it a machine may
    still be unable to hold the list and raise [MemoryError]; that depends on
    the machine and is left out. *)
Definition py_zeros (n : Z) : result (list Z) :=
  if n >? sys_maxsize then Raise OverflowError else Ok (zeros n).

(** The number of digits beyond which [int] of CPython 3.11 and later refuses
    a decimal string (the default of [sys.set_int_max_str_digits]); earlier
    versions have no such limit. *)
Definition int_max_str_digits : nat := 4300.

(** [len(l)] *)
Definition len {A} (l : list A) : Z := Z.of_nat (length l).

(** [range(n)] *)
Definition range (n : Z) : list Z := Z.of_nat <$> seq 0 (Z.to_nat n).

(** [range(n - 1, -1, -1)] *)
Definition range_down (n : Z) : list Z := reverse (range n).

(** [enumerate(l)] *)
Definition enumerate {A} (l : list A) : list (Z * A) := zip (range (len l)) l.

(** [sum(l)] *)
Definition sum (l : list Z) : Z := foldr Z.add 0 l.

(** Every entry of a list is at least zero. *)
Notation "'nonneg'" := (Forall (fun x : Z => 0 <= x)).

(** A [for] loop over [xs] whose body updates the loop state [s] and may
    raise. *)
Fixpoint for_each {S X} (body : S -> X -> result S) (xs : list X) (s : S)
  : result S :=
  match xs with
  | [] => Ok s
  | x :: xs' => s' ← body s x; for_each body xs' s'
  end.

(** ** Alignment records (from [alignment.py]: the fields this file reads) *)

Record Alignment : Set := mkAlignment {
  ref_start : Z;
  ref_end : Z;
  cigar : string
}.

(** ** Hysteresis scorer *)

(** The body of the loop of [get_cigar_scores_forward] and of
    [get_cigar_scores_reverse] (the two are the same text): the loop state is
    the pair of [score] and [scores]. *)
Definition score_column (expanded_cigar pass_fail : list Z)
    (st : Z * list Z) (i : Z) : result (Z * list Z) :=
  let '(score, scores) := st in
  pf ← getitem pass_fail i;
  score ←
    (if pf =? 1 then Ok 0
     else
       ec ← getitem expanded_cigar i;
       if ec =? 0 then Ok (score + 1)
       else
         let score := score - 1 in
         Ok (if score <? 0 then 0 else score));
  scores ← setitem scores i score;
  Ok (score, scores).

Definition get_cigar_scores_forward (expanded_cigar pass_fail : list Z)
  : result (list Z) :=
  let scores := zeros (len expanded_cigar) in
  let score := 0 in
  st ← for_each (score_column expanded_cigar pass_fail)
         (range (len expanded_cigar)) (score, scores);
  Ok st.2.

Definition get_cigar_scores_reverse (expanded_cigar pass_fail : list Z)
  : result (list Z) :=
  let scores := zeros (len expanded_cigar) in
  let score := 0 in
  st ← for_each (score_column expanded_cigar pass_fail)
         (range_down (len expanded_cigar)) (score, scores);
  Ok st.2.

(** *** The scorer's rule as the specification words it *)

(** One column's rule: reset on a failing column, one more on a match, one
    less floored at zero otherwise. *)
Definition spec_rule (score : Z) (col : Z * Z) : Z :=
  let '(op, fail) := col in
  if fail =? 1 then 0
  else if op =? 0 then score + 1
  else Z.max 0 (score - 1).

(** The running score after each column of a scan that starts at [score]:
    each column's value is the running score right after its rule. *)
Fixpoint spec_scan (score : Z) (cols : list (Z * Z)) : list Z :=
  match cols with
  | [] => []
  | col :: cols' =>
      let score' := spec_rule score col in
      score' :: spec_scan score' cols'
  end.


(** ** CIGAR expander *)

(** A CIGAR is a Rocq string, read as the Python string of the code points
    0 to 255 of its characters.  Among these the decimal digits, which [\d]
    matches and [int] reads, are [0] to [9]; a Python string with other
    decimal digits (of code points from 256 on) is outside this model. *)
Definition is_digit (c : ascii) : bool :=
  (48 <=? nat_of_ascii c)%nat && (nat_of_ascii c <=? 57)%nat.

(** The character class [[IDX=]]. *)
Definition is_op (c : ascii) : bool :=
  match c with
  | "I"%char | "D"%char | "X"%char | "="%char => true
  | _ => false
  end.

(** Greedy [\d*] at the head of [s]: the longest prefix of digits, and what
    follows it. *)
Fixpoint match_digits (s : list ascii) : list ascii * list ascii :=
  match s with
  | c :: s' =>
      if is_digit c then
        let '(ds, rest) := match_digits s' in (c :: ds, rest)
      else ([], s)
  | [] => ([], [])
  end.

(** The pattern [\d+[IDX=]] anchored at the head of [s]: the digits and the
    symbol it matches.  No symbol of the class is a digit, so giving back
    digits of the greedy [\d+] never turns a failure into a match, and the
    longest run of digits decides. *)
Definition match_token (s : list ascii) : option (list ascii * ascii) :=
  match match_digits s with
  | (d :: ds, c :: _) => if is_op c then Some (d :: ds, c) else None
  | _ => None
  end.

(** [re.findall(r'\d+[IDX=]', s)]: the matches from left to right, without
    overlap.  Where the pattern does not match, the search moves one
    character on; after a match it resumes behind the match, which [skip]
    counts down to. *)
Fixpoint findall_from (skip : nat) (s : list ascii) : list (list ascii * ascii) :=
  match s with
  | [] => []
  | _ :: s' =>
      match skip with
      | S k => findall_from k s'
      | O =>
          match match_token s with
          | Some (ds, op) => (ds, op) :: findall_from (length ds) s'
          | None => findall_from 0 s'
          end
      end
  end.

Definition findall (s : string) : list (list ascii * ascii) :=
  findall_from 0 (list_ascii_of_string s).

Definition digit_value (c : ascii) : Z := Z.of_nat (nat_of_ascii c) - 48.

(** [int(ds)] for a string of decimal digits. *)
Definition py_int (ds : list ascii) : Z :=
  fold_left (fun acc c => 10 * acc + digit_value c) ds 0.

(** The chain [if letter == '=' ... else: assert False]. *)
Definition letter_code (letter : ascii) : result Z :=
  if Ascii.eqb letter "=" then Ok 0
  else if Ascii.eqb letter "X" then Ok 1
  else if Ascii.eqb letter "I" then Ok 2
  else if Ascii.eqb letter "D" then Ok 3
  else Raise AssertionError.

(** The body of the loop over [cigar_parts]; the state is the pair of
    [expanded_cigar] and [i]. *)
Definition expand_part (st : list Z * Z) (part : Z * ascii) : result (list Z * Z) :=
  let '(num, letter) := part in
  v ← letter_code letter;
  for_each (fun (st : list Z * Z) (_ : Z) =>
              let '(expanded_cigar, i) := st in
              expanded_cigar ← setitem expanded_cigar i v;
              Ok (expanded_cigar, i + 1))
           (range num) st.

Definition get_expanded_cigar (a : Alignment) : result (list Z) :=
  let cigar_parts := findall (cigar a) in
  let cigar_parts := (fun c : list ascii * ascii => (py_int c.1, c.2)) <$> cigar_parts in
  let expanded_cigar_size := sum (fst <$> cigar_parts) in
  expanded_cigar ← py_zeros expanded_cigar_size;
  let i := 0 in
  st ← for_each expand_part cigar_parts (expanded_cigar, i);
  let '(expanded_cigar, i) := st in
  _ ← py_assert (i =? expanded_cigar_size);
  Ok expanded_cigar.

(** The parts that [get_expanded_cigar] takes from a CIGAR string: the
    count and the symbol of every match of the pattern. *)
Definition cigar_parts (s : string) : list (Z * ascii) :=
  (fun c : list ascii * ascii => (py_int c.1, c.2)) <$> findall s.



(** *** A well-formed CIGAR as the specification words it *)



(** ** numpy *)

(** [a[cond(a)] = v]: assignment through a boolean mask. *)
Definition mask_assign (cond : Z -> bool) (v : Z) (a : list Z) : list Z :=
  (fun x => if cond x then v else x) <$> a.

(** [np.ones(n, dtype=int)] *)
Definition np_ones (n : Z) : result (list Z) :=
  if n <? 0 then Raise ValueError else Ok (replicate (Z.to_nat n) 1).

(** An element of an array, and zero outside of it (no wrap-around: this is
    the padding of the correlation, not Python indexing). *)
Definition elem0 (a : list Z) (i : Z) : Z :=
  if i <? 0 then 0 else default 0 (a !! Z.to_nat i).

(** [numpy.correlate(a, v, 'same')] for [len(a) >= len(v)]: the output has
    the length of [a]; with [n_left = len(v) / 2], entry [i] is the dot
    product of [v] with the stretch of [a] that starts at [i - n_left],
    the positions outside [a] counting as zero. *)
Definition np_correlate_same (a v : list Z) : list Z :=
  let n_left := len v / 2 in
  (fun i => sum ((fun k => elem0 a (i + k - n_left) * elem0 v k) <$> range (len v)))
    <$> range (len a).

(** [numpy.convolve(a, v, 'same')]: the longer array comes first, an empty
    array is refused, and the convolution is the correlation with the
    reversed second array.  The elements are 64-bit integers; the sums this
    file takes are counts of at most one window of columns, far from the
    word's limit, so they are computed in [Z]. *)
Definition np_convolve_same (a v : list Z) : result (list Z) :=
  let '(a, v) := if len v >? len a then (v, a) else (a, v) in
  if len a =? 0 then Raise ValueError
  else if len v =? 0 then Raise ValueError
  else Ok (np_correlate_same a (reverse v)).

(** ** Score combiner *)

(** The body of the loop of [combine_forward_and_reverse_scores]; the state
    is the pair of [final_scores] and [j]. *)
Definition combine_column (reverse_scores expanded_cigar : list Z)
    (st : list Z * Z) (x : Z * Z) : result (list Z * Z) :=
  let '(final_scores, j) := st in
  let '(i, f) := x in
  r ← getitem reverse_scores i;
  ec ← getitem expanded_cigar i;
  if negb (ec =? 2) then
    final_scores ← setitem final_scores j (if f <? r then f else r);
    Ok (final_scores, j + 1)
  else Ok (final_scores, j).

Definition combine_forward_and_reverse_scores (a : Alignment)
    (forward_scores reverse_scores expanded_cigar : list Z) : result (list Z) :=
  let final_scores := zeros (ref_end a - ref_start a) in
  _ ← py_assert (len forward_scores =? len reverse_scores);
  let j := 0 in
  st ← for_each (combine_column reverse_scores expanded_cigar)
         (enumerate forward_scores) (final_scores, j);
  let '(final_scores, j) := st in
  _ ← py_assert (len final_scores =? j);
  Ok final_scores.

(** *** The combined score as the specification words it *)

(** [min(forward[i], reverse[i])] for the columns that are not insertions,
    in order. *)
Fixpoint spec_combined (forward_scores reverse_scores expanded_cigar : list Z)
  : list Z :=
  match forward_scores, reverse_scores, expanded_cigar with
  | f :: fs, r :: rs, op :: ops =>
      if op =? 2 then spec_combined fs rs ops
      else Z.min f r :: spec_combined fs rs ops
  | _, _, _ => []
  end.

(** *** The failure mask as the specification words it *)

Definition spec_nonmatch (op : Z) : Z := if op =? 0 then 0 else 1.

(** The number of non-match columns in the window of [window_size] columns
    centred on column [i], cut off at the ends of the alignment: the window
    reaches [window_size / 2] columns to the left and
    [(window_size - 1) / 2] columns to the right (the same on both sides for
    an odd size). *)
Definition spec_window_count (window_size : Z) (expanded_cigar : list Z) (i : Z) : Z :=
  sum ((fun x : Z * Z =>
          let '(j, op) := x in
          if (i - window_size / 2 <=? j) && (j <=? i + (window_size - 1) / 2)
          then spec_nonmatch op else 0) <$> enumerate expanded_cigar).

Definition spec_mask (fail_threshold count : Z) : Z :=
  if count <? fail_threshold then 0 else 1.

Definition spec_pass_fail (window_size fail_threshold : Z) (expanded_cigar : list Z)
  : list Z :=
  (fun i => spec_mask fail_threshold (spec_window_count window_size expanded_cigar i))
    <$> range (len expanded_cigar).

(** *** The selection of alignments as the specification words it

    Of the alignments that the aligner returns for a circular sequence of
    length [L], one after the other, those with [ref_start >= L] are
    discarded and the others kept. *)
Fixpoint spec_discard (L : Z) (returned : list Alignment) : list Alignment :=
  match returned with
  | [] => []
  | a :: returned =>
      if ref_start a >=? L then spec_discard L returned
      else a :: spec_discard L returned
  end.

(** The sum of [f] over the [m] integers from [a] on. *)
Definition zsum (f : Z -> Z) (a : Z) (m : nat) : Z :=
  sum ((fun k => f (a + k)) <$> range (Z.of_nat m)).

(** The operation codes of an expanded CIGAR: 0 [=], 1 [X], 2 [I], 3 [D]. *)
Definition op_codes (expanded_cigar : list Z) : Prop :=
  Forall (fun v => 0 <= v <= 3) expanded_cigar.

(** ** Definitions for the further properties *)


(** Every run of digits that the pattern matches in [s] is short enough for
    [int], whatever the version of Python. *)
Definition digits_fit (s : string) : Prop :=
  Forall (fun t : list ascii * ascii => (length t.1 <= int_max_str_digits)%nat)
         (findall s).

#[global] Instance digits_fit_dec (s : string) : Decision (digits_fit s).
Proof. unfold digits_fit. apply _. Defined.


(** A step on the accumulator that, on accumulators of one length, either
    always raises the same exception or always adds the same numbers. *)
Definition additive (step : list Z -> result (list Z)) : Prop :=
  forall n : nat,
    (exists e, forall pbs, length pbs = n -> step pbs = Raise e) \/
    (exists d, length d = n /\
               forall pbs, length pbs = n -> step pbs = Ok (zip_with Z.add pbs d)).

(** ** A small run, for the concrete cases at the end of the file *)

(** Four alignments to a reference of six bases, whatever the reads. *)
Definition example_alignments : list Alignment :=
  [mkAlignment 0 4 "4="; mkAlignment 1 3 "2=";
   mkAlignment 2 5 "1=1I2="; mkAlignment 4 6 "2="].

Definition example_aligner (_ : unit) (_ : string) (_ : Z) : list Alignment :=
  example_alignments.

(** A plot that draws nothing and never raises. *)
Definition example_plot (_ : string) (_ : list Z) (_ : unit) : result unit := Ok tt.

Section Scores.

(** The two constants of [settings.py] that this file reads. *)
Variable BASE_SCORE_WINDOW : Z.
Variable BASE_SCORE_THRESHOLD : Z.

(** The read pool, and the aligner of [alignment.py]. *)
Variable Reads : Type.
Variable align_reads_to_seq : Reads -> string -> Z -> list Alignment.

(** ** Window failure detector *)

Definition get_pass_fail (expanded_cigar : list Z) : result (list Z) :=
  let simplified_expanded_cigar := expanded_cigar in
  let simplified_expanded_cigar :=
    mask_assign (fun x => x >? 1) 1 simplified_expanded_cigar in
  ones ← np_ones BASE_SCORE_WINDOW;
  pass_fail ← np_convolve_same simplified_expanded_cigar ones;
  let pass_fail := mask_assign (fun x => x <? BASE_SCORE_THRESHOLD) 0 pass_fail in
  let pass_fail := mask_assign (fun x => x >=? BASE_SCORE_THRESHOLD) 1 pass_fail in
  Ok pass_fail.

(** ** Scores of one alignment *)

Definition get_alignment_scores (a : Alignment) : result (list Z) :=
  expanded_cigar ← get_expanded_cigar a;
  pass_fail ← get_pass_fail expanded_cigar;
  forward_scores ← get_cigar_scores_forward expanded_cigar pass_fail;
  reverse_scores ← get_cigar_scores_reverse expanded_cigar pass_fail;
  combine_forward_and_reverse_scores a forward_scores reverse_scores expanded_cigar.

(** ** Scores of one sequence *)

(** [len(seq)] for a string. *)
Definition slen (s : string) : Z := Z.of_nat (String.length s).

(** Lines 46 to 52 of [get_one_seq_per_base_scores]: the reference that the
    reads are aligned to, and the alignments that are kept. *)
Definition select_alignments (seq : string) (reads : Reads) (circular : bool)
    (threads : Z) : string * list Alignment :=
  let seq_len := slen seq in
  if circular then
    let ref_seq := (seq ++ seq)%string in
    let alignments := align_reads_to_seq reads ref_seq threads in
    let alignments := filter (fun a => ref_start a < seq_len) alignments in
    (ref_seq, alignments)
  else
    let ref_seq := seq in
    let alignments := align_reads_to_seq reads ref_seq threads in
    (ref_seq, alignments).

(** [per_base_scores[ref_pos] += s] for one entry of the alignment's
    scores. *)
Definition add_score (a : Alignment) (per_base_scores : list Z) (x : Z * Z)
  : result (list Z) :=
  let '(j, s) := x in
  let ref_pos := ref_start a + j in
  old ← getitem per_base_scores ref_pos;
  setitem per_base_scores ref_pos (old + s).

(** The body of the loop over the alignments (lines 58 to 63). *)
Definition add_alignment (per_base_scores : list Z) (x : Z * Alignment)
  : result (list Z) :=
  let '(_, a) := x in
  alignment_scores ← get_alignment_scores a;
  for_each (add_score a) (enumerate alignment_scores) per_base_scores.

(** Lines 56 to 63: the accumulator over the reference, filled from the
    alignments. *)
Definition accumulate (ref_seq : string) (alignments : list Alignment)
  : result (list Z) :=
  let per_base_scores := zeros (slen ref_seq) in
  for_each add_alignment (enumerate alignments) per_base_scores.

(** The body of the loop that collapses the two halves (lines 70 to 76). *)
Definition undouble_position (seq_len : Z) (per_base_scores : list Z)
    (non_doubled_per_base_scores : list Z) (i : Z) : result (list Z) :=
  score_1 ← getitem per_base_scores i;
  score_2 ← getitem per_base_scores (i + seq_len);
  if score_1 >? score_2 then setitem non_doubled_per_base_scores i score_1
  else setitem non_doubled_per_base_scores i score_2.

(** Lines 68 to 77. *)
Definition undouble (seq_len : Z) (per_base_scores : list Z) : result (list Z) :=
  let non_doubled_per_base_scores := zeros seq_len in
  for_each (undouble_position seq_len per_base_scores) (range seq_len)
    non_doubled_per_base_scores.

Definition get_one_seq_per_base_scores (seq : string) (reads : Reads)
    (circular : bool) (threads : Z) : result (list Z) :=
  let seq_len := slen seq in
  let '(ref_seq, alignments) := select_alignments seq reads circular threads in
  per_base_scores ← accumulate ref_seq alignments;
  per_base_scores ←
    (if circular then undouble seq_len per_base_scores else Ok per_base_scores);
  let total_score := sum per_base_scores in
  Ok per_base_scores.

(** ** Scores of all sequences *)

(** The body of the loop of [get_per_base_scores] over [seqs.items()]; the
    state is the dictionary [per_base_scores].  [plot_per_base_scores] draws
    one profile with matplotlib; it is taken as a parameter, returns nothing
    and may raise.  It reads the entry that was just stored. *)
Definition score_sequence {FastaNames : Type}
    (plot_per_base_scores : string -> list Z -> FastaNames -> result unit)
    (reads : Reads) (circular : bool) (threads : Z)
    (plot_qual : bool) (fasta_names : FastaNames)
    (per_base_scores : gmap string (list Z)) (item : string * string)
  : result (gmap string (list Z)) :=
  let '(seq_name, seq) := item in
  scores ← get_one_seq_per_base_scores seq reads circular threads;
  let per_base_scores := <[seq_name:=scores]> per_base_scores in
  _ ← (if plot_qual
       then plot_per_base_scores seq_name (per_base_scores !!! seq_name) fasta_names
       else Ok tt);
  Ok per_base_scores.

(** [seqs] is the dictionary of the sequences by name, as the list of its
    items in the order of the dictionary. *)
Definition get_per_base_scores {FastaNames : Type}
    (plot_per_base_scores : string -> list Z -> FastaNames -> result unit)
    (seqs : list (string * string)) (reads : Reads)
    (circular : bool) (threads : Z) (plot_qual : bool) (fasta_names : FastaNames)
  : result (gmap string (list Z)) :=
  let per_base_scores : gmap string (list Z) := ∅ in
  for_each (score_sequence plot_per_base_scores reads circular threads plot_qual
              fasta_names)
    seqs per_base_scores.

(** ** Basic facts about the list helpers *)

Lemma py_index_nat (n k : nat) :
  py_index n (Z.of_nat k) = if decide (k < n)%nat then Some k else None.
Proof.
  unfold py_index.
  destruct (decide (k < n)%nat).
  - replace (0 <=? Z.of_nat k) with true by (symmetry; apply Z.leb_le; lia).
    replace (Z.of_nat k <? Z.of_nat n) with true by (symmetry; apply Z.ltb_lt; lia).
    simpl. by rewrite Nat2Z.id.
  - replace (Z.of_nat k <? Z.of_nat n) with false by (symmetry; apply Z.ltb_ge; lia).
    replace (Z.of_nat k <? 0) with false by (symmetry; apply Z.ltb_ge; lia).
    by rewrite !andb_false_r.
Qed.

Lemma getitem_nat {A} (l : list A) (k : nat) :
  getitem l (Z.of_nat k) =
  match l !! k with Some x => Ok x | None => Raise IndexError end.
Proof.
  unfold getitem. rewrite py_index_nat. destruct (decide _) as [H|H]; [done|].
  by rewrite lookup_ge_None_2 by lia.
Qed.

Lemma setitem_nat {A} (l : list A) (k : nat) (x : A) :
  setitem l (Z.of_nat k) x =
  if decide (k < length l)%nat then Ok (<[k:=x]> l) else Raise IndexError.
Proof. unfold setitem. rewrite py_index_nat. by destruct (decide _). Qed.

Lemma getitem_middle {A} (l1 l2 : list A) (x : A) :
  getitem (l1 ++ x :: l2) (len l1) = Ok x.
Proof. unfold len. by rewrite getitem_nat, list_lookup_middle. Qed.

Lemma setitem_middle {A} (l1 l2 : list A) (x y : A) :
  setitem (l1 ++ x :: l2) (len l1) y = Ok (l1 ++ y :: l2).
Proof.
  unfold len. rewrite setitem_nat.
  rewrite decide_True by (rewrite length_app; simpl; lia).
  by rewrite insert_app_r_alt, Nat.sub_diag by lia.
Qed.

Lemma range_S (n : nat) :
  range (Z.of_nat (S n)) = range (Z.of_nat n) ++ [Z.of_nat n].
Proof.
  unfold range. rewrite !Nat2Z.id, seq_S, fmap_app. done.
Qed.

Lemma range_len_cons {A} (x : A) (l : list A) :
  range (len (x :: l)) = 0 :: ((fun i => i + 1) <$> range (len l)).
Proof.
  unfold range, len. rewrite !Nat2Z.id. simpl. f_equal.
  rewrite <- fmap_S_seq, <- !list_fmap_compose.
  apply list_fmap_ext. intros _ k _. simpl. lia.
Qed.

Lemma for_each_app {S X} (body : S -> X -> result S) (xs ys : list X) (s : S) :
  for_each body (xs ++ ys) s = (s' ← for_each body xs s; for_each body ys s').
Proof.
  revert s. induction xs as [|x xs IH]; intros s; simpl; [done|].
  destruct (body s x); simpl; [apply IH | done].
Qed.


(** ** Hysteresis scorer: the loops against [spec_scan] *)

Lemma floor_at_zero (score : Z) :
  (if score - 1 <? 0 then 0 else score - 1) = Z.max 0 (score - 1).
Proof. destruct (Z.ltb_spec (score - 1) 0); lia. Qed.

(** One turn of the loop at column [len ec1], whatever the direction. *)
Lemma score_column_step (ec1 ec2 pf1 pf2 pre post : list Z) (e p x s : Z) :
  length pf1 = length ec1 -> length pre = length ec1 ->
  score_column (ec1 ++ e :: ec2) (pf1 ++ p :: pf2) (s, pre ++ x :: post) (len ec1)
  = Ok (spec_rule s (e, p), pre ++ spec_rule s (e, p) :: post).
Proof.
  intros Hpf Hpre. unfold score_column.
  replace (getitem (pf1 ++ p :: pf2) (len ec1)) with (Ok (A:=Z) p)
    by (unfold len; rewrite <- Hpf; symmetry; apply getitem_middle).
  cbn [mbind result_bind spec_rule].
  rewrite getitem_middle.
  replace (len ec1) with (len pre) by (unfold len; congruence).
  destruct (p =? 1); cbn [mbind result_bind].
  - by rewrite setitem_middle.
  - destruct (e =? 0); cbn [mbind result_bind].
    + by rewrite setitem_middle.
    + rewrite floor_at_zero. by rewrite setitem_middle.
Qed.

Lemma zeros_len_cons {A} (x : A) (l : list A) : zeros (len (x :: l)) = 0 :: zeros (len l).
Proof. unfold zeros, len. by rewrite !Nat2Z.id. Qed.

Lemma zeros_len_snoc {A} (x : A) (l : list A) :
  zeros (len (l ++ [x])) = zeros (len l) ++ [0].
Proof.
  unfold zeros, len. rewrite !Nat2Z.id, length_app. simpl.
  rewrite Nat.add_1_r. by rewrite replicate_S_end.
Qed.

Lemma len_snoc {A} (x : A) (l : list A) : len (l ++ [x]) = len l + 1.
Proof. unfold len. rewrite length_app. simpl. lia. Qed.

Lemma len_cons {A} (x : A) (l : list A) : len (x :: l) = len l + 1.
Proof. unfold len. simpl. lia. Qed.

Lemma len_app {A} (l k : list A) : len (l ++ k) = len l + len k.
Proof. unfold len. rewrite length_app. lia. Qed.

(** The forward loop from column [len ec1] on, the columns before it being
    done. *)
Lemma forward_loop (ec2 : list Z) : forall (ec1 pf1 pf2 pf3 pre : list Z) (s : Z),
  length pf1 = length ec1 -> length pre = length ec1 -> length pf2 = length ec2 ->
  exists s',
    for_each (score_column (ec1 ++ ec2) (pf1 ++ pf2 ++ pf3))
      ((fun k => len ec1 + k) <$> range (len ec2)) (s, pre ++ zeros (len ec2))
    = Ok (s', pre ++ spec_scan s (zip ec2 pf2)).
Proof.
  induction ec2 as [|e ec2 IH]; intros ec1 pf1 pf2 pf3 pre s Hpf1 Hpre Hpf2.
  - exists s. destruct pf2; [|done]. done.
  - destruct pf2 as [|p pf2]; [done|]. injection Hpf2 as Hpf2.
    rewrite range_len_cons, zeros_len_cons, fmap_cons, Z.add_0_r.
    cbn [for_each]. rewrite <- app_comm_cons.
    rewrite score_column_step by done. cbn [mbind result_bind].
    destruct (IH (ec1 ++ [e]) (pf1 ++ [p]) pf2 pf3
                (pre ++ [spec_rule s (e, p)]) (spec_rule s (e, p))) as [s' Hs'].
    { rewrite !length_app. simpl. lia. }
    { rewrite !length_app. simpl. lia. }
    { done. }
    exists s'. rewrite <- !app_assoc in Hs'. simpl in Hs'.
    rewrite <- list_fmap_compose.
    erewrite list_fmap_ext; [exact Hs'|].
    intros _ k _. simpl. rewrite len_snoc. lia.
Qed.

(** The reverse loop from column [len ec1 - 1] down, the columns behind it
    being done. *)
Lemma reverse_loop (ec1 : list Z) : forall (pf1 ec2 pf2 suf : list Z) (s : Z),
  length pf1 = length ec1 ->
  exists s',
    for_each (score_column (ec1 ++ ec2) (pf1 ++ pf2))
      (range_down (len ec1)) (s, zeros (len ec1) ++ suf)
    = Ok (s', reverse (spec_scan s (reverse (zip ec1 pf1))) ++ suf).
Proof.
  induction ec1 as [|e ec1 IH] using rev_ind; intros pf1 ec2 pf2 suf s Hpf1.
  - exists s. destruct pf1; [|done]. done.
  - destruct pf1 as [|p pf1 _] using rev_ind.
    { rewrite length_app in Hpf1. simpl in Hpf1. lia. }
    rewrite !length_app in Hpf1. simpl in Hpf1.
    assert (length pf1 = length ec1) as Hlen by lia.
    unfold range_down, len. rewrite length_app. simpl length.
    rewrite Nat.add_1_r, range_S, reverse_app, reverse_singleton.
    fold (len ec1). fold (range_down (len ec1)).
    replace (zeros (Z.of_nat (S (length ec1)))) with (zeros (len ec1) ++ [0]).
    2:{ rewrite <- (zeros_len_snoc 0 ec1). unfold len. rewrite length_app.
        simpl. by rewrite Nat.add_1_r. }
    cbn [app for_each]. rewrite <- !app_assoc. cbn [app].
    rewrite score_column_step by (done || (unfold zeros, len; rewrite length_replicate; lia)).
    cbn [mbind result_bind].
    destruct (IH pf1 (e :: ec2) (p :: pf2) (spec_rule s (e, p) :: suf)
                (spec_rule s (e, p)) Hlen) as [s' Hs'].
    exists s'. rewrite Hs'. do 2 f_equal.
    rewrite zip_with_app by done. simpl.
    rewrite reverse_app, reverse_singleton. simpl.
    rewrite reverse_cons, <- app_assoc. done.
Qed.

Lemma forward_scan (ec pf : list Z) :
  (length ec <= length pf)%nat ->
  get_cigar_scores_forward ec pf = Ok (spec_scan 0 (zip ec pf)).
Proof.
  intros Hlen. unfold get_cigar_scores_forward.
  destruct (forward_loop ec [] [] (take (length ec) pf) (drop (length ec) pf) [] 0)
    as [s' Hs']; [done|done|by rewrite length_take; lia|].
  simpl in Hs'. rewrite take_drop in Hs'.
  erewrite list_fmap_ext in Hs'; [rewrite list_fmap_id in Hs'|].
  2:{ intros _ k _. unfold len. simpl. reflexivity. }
  rewrite Hs'. cbn [mbind result_bind]. simpl. f_equal.
  rewrite <- (take_drop (length ec) pf) at 2.
  rewrite <- (app_nil_r ec) at 3.
  rewrite zip_with_app by (rewrite length_take; lia).
  simpl. by rewrite app_nil_r.
Qed.

Lemma reverse_scan (ec pf : list Z) :
  (length ec <= length pf)%nat ->
  get_cigar_scores_reverse ec pf
  = Ok (reverse (spec_scan 0 (reverse (zip ec (take (length ec) pf))))).
Proof.
  intros Hlen. unfold get_cigar_scores_reverse.
  destruct (reverse_loop ec (take (length ec) pf) [] (drop (length ec) pf) [] 0)
    as [s' Hs']; [by rewrite length_take; lia|].
  rewrite !app_nil_r, take_drop in Hs'.
  rewrite Hs'. done.
Qed.


(** C1: for an expanded CIGAR and a failure mask of equal length, each scan
    gives every column the running score right after the column's rule
    (reset to 0 on a failing column, plus 1 on a match, minus 1 floored at 0
    otherwise), the running score being 0 before the scan's first column:
    the forward scores are [spec_scan] from 0 over the columns in order, the
    reverse scores are [spec_scan] from 0 over the columns from the last to
    the first, put back in column order. *)
Theorem directional_scores_follow_rule (expanded_cigar pass_fail : list Z) :
  length expanded_cigar = length pass_fail ->
  get_cigar_scores_forward expanded_cigar pass_fail
  = Ok (spec_scan 0 (zip expanded_cigar pass_fail)) /\
  get_cigar_scores_reverse expanded_cigar pass_fail
  = Ok (reverse (spec_scan 0 (reverse (zip expanded_cigar pass_fail)))).
Proof.
  intros Hlen. split.
  - apply forward_scan. lia.
  - rewrite reverse_scan by lia. by rewrite take_ge by lia.
Qed.

(** ** Score combiner: the loop against [spec_combined] *)

Lemma min_by_comparison (f r : Z) : (if f <? r then f else r) = Z.min f r.
Proof. destruct (Z.ltb_spec f r); lia. Qed.

Lemma enumerate_cons {A} (x : A) (l : list A) :
  enumerate (x :: l) = (0, x) :: zip ((fun i => i + 1) <$> range (len l)) l.
Proof. unfold enumerate. by rewrite range_len_cons. Qed.

Lemma combine_column_step (fwd1 rev1 rev2 ec1 ec2 final_scores : list Z) (f r e j : Z) :
  length rev1 = length fwd1 -> length ec1 = length fwd1 ->
  combine_column (rev1 ++ r :: rev2) (ec1 ++ e :: ec2) (final_scores, j) (len fwd1, f)
  = if e =? 2 then Ok (final_scores, j)
    else final_scores' ← setitem final_scores j (Z.min f r); Ok (final_scores', j + 1).
Proof.
  intros Hr He. unfold combine_column.
  replace (getitem (rev1 ++ r :: rev2) (len fwd1)) with (Ok (A:=Z) r)
    by (unfold len; rewrite <- Hr; symmetry; apply getitem_middle).
  replace (getitem (ec1 ++ e :: ec2) (len fwd1)) with (Ok (A:=Z) e)
    by (unfold len; rewrite <- He; symmetry; apply getitem_middle).
  cbn [mbind result_bind]. rewrite min_by_comparison. by destruct (e =? 2).
Qed.

(** The loop from column [len fwd1] on, [done] being the part of
    [final_scores] written so far and [rest] the part still zero: the loop
    writes the minima of the columns that are not insertions, and raises
    [IndexError] when they do not fit. *)
Lemma combine_loop (fwd2 : list Z) :
  forall (fwd1 rev1 rev2 ec1 ec2 done rest : list Z),
  length rev1 = length fwd1 -> length ec1 = length fwd1 ->
  length rev2 = length fwd2 -> length ec2 = length fwd2 ->
  for_each (combine_column (rev1 ++ rev2) (ec1 ++ ec2))
    (zip ((fun k => len fwd1 + k) <$> range (len fwd2)) fwd2) (done ++ rest, len done)
  = let out := spec_combined fwd2 rev2 ec2 in
    if decide (length out <= length rest)%nat
    then Ok (done ++ out ++ drop (length out) rest, len done + len out)
    else Raise IndexError.
Proof.
  induction fwd2 as [|f fwd2 IH]; intros fwd1 rev1 rev2 ec1 ec2 done rest Hr1 He1 Hr2 He2.
  - cbn zeta. change (spec_combined [] rev2 ec2) with (@nil Z).
    rewrite decide_True by (simpl; lia).
    change (len (@nil Z)) with 0. rewrite Z.add_0_r. done.
  - destruct rev2 as [|r rev2]; [done|]. destruct ec2 as [|e ec2]; [done|].
    injection Hr2 as Hr2. injection He2 as He2.
    rewrite range_len_cons, fmap_cons, Z.add_0_r. cbn [zip zip_with for_each].
    rewrite combine_column_step by done.
    cbn [spec_combined].
    rewrite <- list_fmap_compose.
    assert (((fun k => len fwd1 + k) ∘ (fun i => i + 1) <$> range (len fwd2))
            = ((fun k => len (fwd1 ++ [f]) + k) <$> range (len fwd2))) as ->.
    { apply list_fmap_ext. intros _ k _. simpl. rewrite len_snoc. lia. }
    specialize (IH (fwd1 ++ [f]) (rev1 ++ [r]) rev2 (ec1 ++ [e]) ec2).
    rewrite <- !app_assoc in IH. cbn [app] in IH.
    destruct (e =? 2); cbn [mbind result_bind]; cbv zeta.
    + apply IH; rewrite ?length_app; simpl; lia.
    + destruct rest as [|x rest].
      * rewrite app_nil_r. unfold len. rewrite setitem_nat.
        rewrite decide_False by lia. cbn [mbind result_bind].
        rewrite decide_False by (simpl; lia). done.
      * rewrite setitem_middle. cbn [mbind result_bind].
        specialize (IH (done ++ [Z.min f r]) rest).
        rewrite <- !app_assoc, (len_snoc _ done) in IH. cbn [app] in IH.
        rewrite IH by (rewrite ?length_app; simpl; lia).
        simpl length.
        destruct (decide (length (spec_combined fwd2 rev2 ec2) <= length rest)%nat).
        -- rewrite decide_True by lia. simpl. do 2 f_equal. rewrite len_cons. lia.
        -- rewrite decide_False by lia. done.
Qed.

(** What the combiner returns, case by case: the minima when as many columns
    are not insertions as the alignment spans reference positions, and an
    exception otherwise. *)
Lemma combine_cases (a : Alignment) (fwd rev ec : list Z) :
  length rev = length fwd -> length ec = length fwd ->
  combine_forward_and_reverse_scores a fwd rev ec
  = let out := spec_combined fwd rev ec in
    if decide (length out = Z.to_nat (ref_end a - ref_start a)) then Ok out
    else if decide (length out < Z.to_nat (ref_end a - ref_start a))%nat
         then Raise AssertionError else Raise IndexError.
Proof.
  intros Hr He. unfold combine_forward_and_reverse_scores.
  replace (len fwd =? len rev) with true
    by (symmetry; apply Z.eqb_eq; unfold len; lia).
  cbn [py_assert mbind result_bind]. unfold enumerate.
  pose proof (combine_loop fwd [] [] rev [] ec []
                (zeros (ref_end a - ref_start a)) eq_refl eq_refl Hr He) as Hloop.
  cbn [app] in Hloop.
  erewrite list_fmap_ext, list_fmap_id in Hloop;
    [|intros _ k _; unfold len; simpl; reflexivity].
  change (len (@nil Z)) with 0 in Hloop.
  rewrite Hloop. clear Hloop. cbv zeta.
  set (out := spec_combined fwd rev ec).
  set (m := Z.to_nat (ref_end a - ref_start a)).
  assert (length (zeros (ref_end a - ref_start a)) = m) as Hm
    by (unfold zeros; apply length_replicate).
  rewrite Hm.
  destruct (decide (length out <= m)%nat) as [Hle|Hgt].
  - cbn [mbind result_bind].
    rewrite Z.add_0_l.
    destruct (decide (length out = m)) as [Heq|Hne].
    + rewrite drop_ge by lia. rewrite app_nil_r.
      unfold len. rewrite Z.eqb_refl. done.
    + replace (len (out ++ drop (length out) (zeros (ref_end a - ref_start a))) =? len out)
        with false.
      2:{ symmetry. apply Z.eqb_neq. unfold len.
          rewrite length_app, length_drop, Hm. lia. }
      cbn [py_assert mbind result_bind]. rewrite decide_True by lia. done.
  - cbn [mbind result_bind]. rewrite decide_False by lia.
    rewrite decide_False by lia. done.
Qed.

(** C2: for forward and reverse scores of equal length and the expanded
    CIGAR they were computed from, of an alignment whose [ref_start] is not
    behind its [ref_end], the combiner returns, in order, the minimum of the
    two scores at each column that is not an insertion, whenever that makes
    [ref_end - ref_start] entries; when it does not, the combiner raises an
    exception; so whatever it returns is that list and has length
    [ref_end - ref_start]. *)
Theorem combiner_takes_min_and_checks_length (a : Alignment) (fwd rev ec : list Z) :
  length fwd = length rev -> length ec = length fwd ->
  ref_start a <= ref_end a ->
  let out := spec_combined fwd rev ec in
  (len out = ref_end a - ref_start a ->
   combine_forward_and_reverse_scores a fwd rev ec = Ok out) /\
  (len out <> ref_end a - ref_start a ->
   exists e, combine_forward_and_reverse_scores a fwd rev ec = Raise e) /\
  (forall res, combine_forward_and_reverse_scores a fwd rev ec = Ok res ->
   res = out /\ len res = ref_end a - ref_start a).
Proof.
  intros Hr He Hspan out.
  rewrite combine_cases by lia. cbn zeta. fold out. unfold len.
  split; [|split].
  - intros Heq. rewrite decide_True by lia. done.
  - intros Hne. rewrite decide_False by lia.
    destruct (decide _); eauto.
  - intros res. destruct (decide _) as [Heq|Hne].
    + intros [= <-]. split; [done|lia].
    + destruct (decide _); done.
Qed.


(** ** Loops, reads and writes in general *)

(** A property that every turn of a loop keeps holds when the loop is
    over. *)
Lemma for_each_inv {S X} (P : S -> Prop) (body : S -> X -> result S) (xs : list X) :
  (forall s x s', x ∈ xs -> P s -> body s x = Ok s' -> P s') ->
  forall s s', P s -> for_each body xs s = Ok s' -> P s'.
Proof.
  induction xs as [|x xs IH]; intros Hbody s s' Hs Hrun; simpl in Hrun.
  - by injection Hrun as <-.
  - destruct (body s x) as [s1|] eqn:Hx; [|done]. cbn [mbind result_bind] in Hrun.
    apply (IH (fun s0 y s0' Hy => Hbody s0 y s0' (list_elem_of_further _ _ _ Hy)) s1 s');
      [|done].
    apply (Hbody s x s1); [left|done|done].
Qed.

Lemma py_index_Some (n : nat) (i : Z) (k : nat) :
  py_index n i = Some k -> (k < n)%nat.
Proof.
  unfold py_index.
  destruct (Z.leb_spec 0 i), (Z.ltb_spec i (Z.of_nat n)); simpl;
    try (intros [= <-]; lia);
    destruct (Z.leb_spec (- Z.of_nat n) i), (Z.ltb_spec i 0); simpl;
    try done; intros [= <-]; lia.
Qed.

Lemma py_index_in_range (n : nat) (i : Z) :
  0 <= i < Z.of_nat n -> py_index n i = Some (Z.to_nat i).
Proof.
  intros Hi. unfold py_index.
  replace (0 <=? i) with true by (symmetry; apply Z.leb_le; lia).
  replace (i <? Z.of_nat n) with true by (symmetry; apply Z.ltb_lt; lia).
  done.
Qed.

Lemma getitem_Ok {A} (l : list A) (i : Z) (x : A) :
  getitem l i = Ok x -> exists k, py_index (length l) i = Some k /\ l !! k = Some x.
Proof.
  unfold getitem. destruct (py_index (length l) i) as [k|]; [|done].
  destruct (l !! k) eqn:Hk; [|done]. intros [= <-]. eauto.
Qed.

Lemma setitem_Ok {A} (l l' : list A) (i : Z) (x : A) :
  setitem l i x = Ok l' ->
  exists k, py_index (length l) i = Some k /\ (k < length l)%nat /\ l' = <[k:=x]> l.
Proof.
  unfold setitem. destruct (py_index (length l) i) as [k|] eqn:Hk; [|done].
  intros [= <-]. exists k. eauto using py_index_Some.
Qed.

Lemma setitem_length {A} (l l' : list A) (i : Z) (x : A) :
  setitem l i x = Ok l' -> length l' = length l.
Proof. intros (k & _ & _ & ->)%setitem_Ok. apply length_insert. Qed.

Lemma setitem_Forall {A} (P : A -> Prop) (l l' : list A) (i : Z) (x : A) :
  Forall P l -> P x -> setitem l i x = Ok l' -> Forall P l'.
Proof. intros Hl Hx (k & _ & _ & ->)%setitem_Ok. by apply Forall_insert. Qed.

Lemma getitem_Forall {A} (P : A -> Prop) (l : list A) (i : Z) (x : A) :
  Forall P l -> getitem l i = Ok x -> P x.
Proof.
  intros Hl (k & _ & Hk)%getitem_Ok. by eapply Forall_lookup_1.
Qed.

Lemma sum_cons (x : Z) (l : list Z) : sum (x :: l) = x + sum l.
Proof. reflexivity. Qed.

Lemma sum_app (l k : list Z) : sum (l ++ k) = sum l + sum k.
Proof. induction l as [|x l IH]; simpl; [done|]. unfold sum in *. simpl. lia. Qed.

Lemma sum_insert (l : list Z) (k : nat) (old new : Z) :
  l !! k = Some old -> sum (<[k:=new]> l) = sum l - old + new.
Proof.
  revert k. induction l as [|x l IH]; intros [|k] Hk; try done.
  - injection Hk as ->. unfold sum. simpl. lia.
  - simpl in Hk. apply IH in Hk. unfold sum in *. simpl. lia.
Qed.

Lemma sum_zeros (n : Z) : sum (zeros n) = 0.
Proof. unfold zeros. induction (Z.to_nat n) as [|k IH]; [done|]. unfold sum in *. simpl. lia. Qed.

Lemma sum_nonneg (l : list Z) : Forall (fun x => 0 <= x) l -> 0 <= sum l.
Proof. induction 1 as [|x l Hx _ IH]; unfold sum in *; simpl; lia. Qed.

Lemma zeros_nonneg (n : Z) : Forall (fun x => 0 <= x) (zeros n).
Proof. unfold zeros. apply Forall_replicate. lia. Qed.

Lemma length_zeros (n : Z) : length (zeros n) = Z.to_nat n.
Proof. apply length_replicate. Qed.

Lemma length_range (n : Z) : length (range n) = Z.to_nat n.
Proof. unfold range. by rewrite length_fmap, length_seq. Qed.

Lemma enumerate_snd {A} (l : list A) : (enumerate l).*2 = l.
Proof.
  unfold enumerate. apply snd_zip. rewrite length_range. unfold len. lia.
Qed.

Lemma elem_of_enumerate_snd {A} (l : list A) (i : Z) (x : A) :
  (i, x) ∈ enumerate l -> x ∈ l.
Proof.
  intros Hin. rewrite <- (enumerate_snd l).
  apply list_elem_of_fmap. by exists (i, x).
Qed.


(** ** Scores are never negative *)

Lemma score_column_inv (ec pf scores scores' : list Z) (s s' i : Z) :
  score_column ec pf (s, scores) i = Ok (s', scores') ->
  0 <= s -> nonneg scores ->
  0 <= s' /\ nonneg scores' /\ length scores' = length scores.
Proof.
  intros Hrun Hs Hscores. unfold score_column in Hrun. bind_ok Hrun.
  injection Hrun as <- <-.
  assert (0 <= a0) as Ha0.
  { destruct (a =? 1); [by injection E0 as <-|]. bind_ok E0.
    destruct (a2 =? 0); injection E0 as <-; [lia|].
    destruct (Z.ltb_spec (s - 1) 0); lia. }
  split; [done|]. split; [by eapply setitem_Forall|by eapply setitem_length].
Qed.

Lemma directional_loop_inv (ec pf : list Z) (idxs : list Z) (s : Z) (scores : list Z)
    (st' : Z * list Z) :
  for_each (score_column ec pf) idxs (s, scores) = Ok st' ->
  0 <= s -> nonneg scores ->
  nonneg st'.2 /\ length st'.2 = length scores.
Proof.
  intros Hrun Hs Hscores.
  cut (0 <= st'.1 /\ nonneg st'.2 /\ length st'.2 = length scores); [tauto|].
  revert Hrun.
  apply (for_each_inv
           (fun st => 0 <= st.1 /\ nonneg st.2 /\ length st.2 = length scores));
    [|done].
  intros [s0 sc0] i [s1 sc1] _ (H0 & Hsc & Hlen) Hcol. simpl in *.
  destruct (score_column_inv _ _ _ _ _ _ _ Hcol H0 Hsc) as (? & ? & ?).
  repeat split; [done|done|congruence].
Qed.

Lemma forward_scores_inv (ec pf scores : list Z) :
  get_cigar_scores_forward ec pf = Ok scores ->
  nonneg scores /\ length scores = length ec.
Proof.
  unfold get_cigar_scores_forward. intros Hrun. bind_ok Hrun. injection Hrun as <-.
  apply directional_loop_inv in E; [|lia|apply zeros_nonneg].
  rewrite length_zeros in E. unfold len in E. by rewrite Nat2Z.id in E.
Qed.

Lemma reverse_scores_inv (ec pf scores : list Z) :
  get_cigar_scores_reverse ec pf = Ok scores ->
  nonneg scores /\ length scores = length ec.
Proof.
  unfold get_cigar_scores_reverse. intros Hrun. bind_ok Hrun. injection Hrun as <-.
  apply directional_loop_inv in E; [|lia|apply zeros_nonneg].
  rewrite length_zeros in E. unfold len in E. by rewrite Nat2Z.id in E.
Qed.

Lemma spec_combined_nonneg (fwd : list Z) : forall rev ec : list Z,
  nonneg fwd -> nonneg rev -> nonneg (spec_combined fwd rev ec).
Proof.
  induction fwd as [|f fwd IH]; intros [|r rev] [|e ec] Hf Hr; simpl; try done.
  apply Forall_cons_1 in Hf as [Hf0 Hf]. apply Forall_cons_1 in Hr as [Hr0 Hr].
  destruct (e =? 2); [by apply IH|].
  constructor; [lia|by apply IH].
Qed.

(** What a successful run of [get_alignment_scores] went through. *)
Lemma get_alignment_scores_Ok (a : Alignment) (cs : list Z) :
  get_alignment_scores a = Ok cs ->
  exists ec pf fwd rev,
    get_expanded_cigar a = Ok ec /\ get_pass_fail ec = Ok pf /\
    get_cigar_scores_forward ec pf = Ok fwd /\
    get_cigar_scores_reverse ec pf = Ok rev /\
    cs = spec_combined fwd rev ec /\
    length cs = Z.to_nat (ref_end a - ref_start a) /\
    nonneg cs.
Proof.
  unfold get_alignment_scores. intros Hrun. bind_ok Hrun.
  rename a0 into ec, a1 into pf, a2 into fwd, a3 into rev.
  destruct (forward_scores_inv _ _ _ E1) as [Hf Hflen].
  destruct (reverse_scores_inv _ _ _ E2) as [Hr Hrlen].
  rewrite combine_cases in Hrun by congruence. cbv zeta in Hrun.
  destruct (decide _) as [Hlen|]; [|by destruct (decide _)].
  injection Hrun as <-.
  exists ec, pf, fwd, rev. repeat split; try done.
  by apply spec_combined_nonneg.
Qed.

(** ** Accumulator *)

Lemma add_score_Ok (a : Alignment) (pbs pbs' : list Z) (j s : Z) :
  add_score a pbs (j, s) = Ok pbs' ->
  length pbs' = length pbs /\ sum pbs' = sum pbs + s /\
  (nonneg pbs -> 0 <= s -> nonneg pbs').
Proof.
  unfold add_score. intros Hrun. bind_ok Hrun.
  apply getitem_Ok in E as (k & Hk & Hold).
  apply setitem_Ok in Hrun as (k' & Hk' & _ & ->).
  assert (k' = k) as -> by congruence.
  rewrite length_insert, (sum_insert _ _ _ _ Hold).
  repeat split; [lia|].
  intros Hpbs Hs. apply Forall_insert; [done|].
  pose proof (Forall_lookup_1 _ _ _ _ Hpbs Hold). simpl in *. lia.
Qed.

Lemma add_scores_Ok (a : Alignment) (js : list (Z * Z)) : forall pbs pbs' : list Z,
  for_each (add_score a) js pbs = Ok pbs' ->
  length pbs' = length pbs /\ sum pbs' = sum pbs + sum js.*2 /\
  (nonneg pbs -> nonneg js.*2 -> nonneg pbs').
Proof.
  induction js as [|[j s] js IH]; intros pbs pbs' Hrun; simpl in Hrun.
  - injection Hrun as <-. unfold sum. simpl. split; [done|]. split; [lia|done].
  - bind_ok Hrun. apply add_score_Ok in E as (Hlen & Hsum & Hnn).
    apply IH in Hrun as (Hlen' & Hsum' & Hnn').
    split; [congruence|]. split; [rewrite Hsum', Hsum, fmap_cons, sum_cons; simpl; lia|].
    intros Hpbs [Hs Hjs]%Forall_cons_1. auto.
Qed.

Lemma accumulate_loop_Ok (xs : list (Z * Alignment)) : forall pbs pbs' : list Z,
  for_each add_alignment xs pbs = Ok pbs' ->
  length pbs' = length pbs /\ (nonneg pbs -> nonneg pbs') /\
  exists css,
    Forall2 (fun a cs => get_alignment_scores a = Ok cs) xs.*2 css /\
    sum pbs' = sum pbs + sum (sum <$> css).
Proof.
  induction xs as [|[i a] xs IH]; intros pbs pbs' Hrun; simpl in Hrun.
  - injection Hrun as <-. split; [done|]. split; [done|].
    exists []. split; [constructor|]. unfold sum. simpl. lia.
  - bind_ok Hrun. unfold add_alignment in E. bind_ok E.
    rename a1 into cs, a0 into pbs1.
    apply add_scores_Ok in E as (Hlen & Hsum & Hnn). rewrite enumerate_snd in *.
    apply IH in Hrun as (Hlen' & Hnn' & css & Hcss & Hsum').
    destruct (get_alignment_scores_Ok _ _ E0) as (_ & _ & _ & _ & _ & _ & _ & _ & _ & _ & Hcs).
    split; [congruence|]. split; [auto|].
    exists (cs :: css). split; [by constructor|].
    rewrite Hsum', Hsum, fmap_cons, sum_cons. lia.
Qed.

Lemma accumulate_Ok (ref_seq : string) (alignments : list Alignment) (acc : list Z) :
  accumulate ref_seq alignments = Ok acc ->
  len acc = slen ref_seq /\ nonneg acc /\
  exists css,
    Forall2 (fun a cs => get_alignment_scores a = Ok cs) alignments css /\
    sum acc = sum (sum <$> css).
Proof.
  unfold accumulate. intros (Hlen & Hnn & css & Hcss & Hsum)%accumulate_loop_Ok.
  rewrite enumerate_snd in Hcss. rewrite sum_zeros in Hsum.
  rewrite length_zeros in Hlen. unfold len, slen in *.
  split; [lia|]. split; [by apply Hnn, zeros_nonneg|eauto].
Qed.


(** ** Collapsing the two halves *)

Lemma max_by_comparison (x y : Z) : (if x >? y then x else y) = Z.max x y.
Proof. rewrite Z.gtb_ltb. destruct (Z.ltb_spec y x); lia. Qed.

Lemma undouble_position_step (a1d a1r a2d a2r done post : list Z) (x y z : Z) :
  length a2d = length a1d -> length done = length a1d ->
  undouble_position (len (a1d ++ x :: a1r)) ((a1d ++ x :: a1r) ++ a2d ++ y :: a2r)
    (done ++ z :: post) (len a1d)
  = Ok (done ++ Z.max x y :: post).
Proof.
  intros H2 Hd. unfold undouble_position.
  rewrite <- (app_assoc a1d), <- app_comm_cons, getitem_middle.
  cbn [mbind result_bind].
  replace (len a1d + len (a1d ++ x :: a1r)) with (len ((a1d ++ x :: a1r) ++ a2d))
    by (rewrite !len_app; unfold len; lia).
  rewrite app_comm_cons, (app_assoc a1d), (app_assoc _ a2d), getitem_middle.
  cbn [mbind result_bind].
  replace (len a1d) with (len done) by (unfold len; lia).
  rewrite <- max_by_comparison.
  destruct (x >? y); apply setitem_middle.
Qed.

Lemma undouble_loop (a1r : list Z) : forall a1d a2d a2r done : list Z,
  length a2d = length a1d -> length done = length a1d -> length a2r = length a1r ->
  for_each (undouble_position (len (a1d ++ a1r)) ((a1d ++ a1r) ++ a2d ++ a2r))
    ((fun k => len a1d + k) <$> range (len a1r)) (done ++ zeros (len a1r))
  = Ok (done ++ zip_with Z.max a1r a2r).
Proof.
  induction a1r as [|x a1r IH]; intros a1d a2d a2r done H2 Hd Hr.
  - destruct a2r; done.
  - destruct a2r as [|y a2r]; [done|]. injection Hr as Hr.
    rewrite range_len_cons, zeros_len_cons, fmap_cons, Z.add_0_r.
    cbn [for_each]. rewrite undouble_position_step by done.
    cbn [mbind result_bind].
    specialize (IH (a1d ++ [x]) (a2d ++ [y]) a2r (done ++ [Z.max x y])).
    rewrite <- (app_assoc a1d [x] a1r), <- (app_assoc a2d [y] a2r),
      <- !(app_assoc done) in IH.
    cbn [app] in IH.
    rewrite <- list_fmap_compose.
    erewrite list_fmap_ext; [apply IH; rewrite ?length_app; simpl; lia|].
    intros _ k _. simpl. rewrite len_snoc. lia.
Qed.

(** The fold of a doubled accumulator: the maxima of the two halves. *)
Lemma undouble_fold (L : nat) (acc : list Z) :
  length acc = (2 * L)%nat ->
  undouble (Z.of_nat L) acc = Ok (zip_with Z.max (take L acc) (drop L acc)).
Proof.
  intros Hlen. unfold undouble.
  pose proof (undouble_loop (take L acc) [] [] (drop L acc) [] eq_refl eq_refl) as Hloop.
  cbn [app] in Hloop. rewrite take_drop in Hloop.
  assert (length (take L acc) = L) as HL by (rewrite length_take; lia).
  unfold len in Hloop at 1 3 4. rewrite HL in Hloop.
  erewrite list_fmap_ext, list_fmap_id in Hloop;
    [|intros _ k _; unfold len; simpl; reflexivity].
  apply Hloop. rewrite length_drop. lia.
Qed.

Lemma zip_with_max_nonneg (l : list Z) : forall k : list Z,
  nonneg l -> nonneg (zip_with Z.max l k).
Proof.
  induction l as [|x l IH]; intros [|y k] Hl; simpl; try done.
  apply Forall_cons_1 in Hl as [Hx Hl]. constructor; [lia|by apply IH].
Qed.

(** Where both halves are at least zero, the fold loses what the smaller
    half held and never gains. *)
Lemma sum_zip_with_max_le (l : list Z) : forall k : list Z,
  nonneg l -> nonneg k -> sum (zip_with Z.max l k) <= sum l + sum k.
Proof.
  induction l as [|x l IH]; intros k Hl Hk.
  - simpl. change (sum []) with 0. pose proof (sum_nonneg _ Hk). lia.
  - destruct k as [|y k].
    + change (zip_with Z.max (x :: l) []) with (@nil Z). change (sum []) with 0.
      pose proof (sum_nonneg _ Hl). lia.
    + apply Forall_cons_1 in Hl as [Hx Hl]. apply Forall_cons_1 in Hk as [Hy Hk].
      cbn [zip_with]. rewrite !sum_cons. specialize (IH k Hl Hk). lia.
Qed.

Lemma slen_append (s1 s2 : string) : slen (s1 ++ s2) = slen s1 + slen s2.
Proof.
  unfold slen. induction s1 as [|c s1 IH]; [done|].
  change (String c s1 ++ s2)%string with (String c (s1 ++ s2)).
  cbn [String.length]. rewrite !Nat2Z.inj_succ. lia.
Qed.

(** ** The orchestrator, phase by phase *)

Lemma get_one_seq_linear (seq : string) (reads : Reads) (threads : Z) :
  get_one_seq_per_base_scores seq reads false threads
  = accumulate seq (align_reads_to_seq reads seq threads).
Proof.
  unfold get_one_seq_per_base_scores, select_alignments.
  by destruct (accumulate _ _).
Qed.

Lemma get_one_seq_circular (seq : string) (reads : Reads) (threads : Z) :
  get_one_seq_per_base_scores seq reads true threads
  = (acc ← accumulate (seq ++ seq)
             (select_alignments seq reads true threads).2;
     Ok (zip_with Z.max (take (String.length seq) acc) (drop (String.length seq) acc))).
Proof.
  unfold get_one_seq_per_base_scores, select_alignments. cbn [snd].
  destruct (accumulate _ _) as [acc|] eqn:Hacc; [|done].
  cbn [mbind result_bind].
  apply accumulate_Ok in Hacc as (Hlen & _).
  rewrite slen_append in Hlen. unfold slen, len in *.
  rewrite undouble_fold by lia. done.
Qed.


(** C3: for a circular sequence of length [L], once the alignments are
    accumulated into the accumulator [acc] over the doubled reference, [acc]
    has length [2 * L], the pipeline returns a profile of length [L], and the
    profile's entry at every position [i < L] is the maximum of [acc]'s
    entries at [i] and at [i + L]. *)
Theorem circular_profile_folds_by_max (seq : string) (reads : Reads) (threads : Z)
    (acc : list Z) :
  accumulate (seq ++ seq) (select_alignments seq reads true threads).2 = Ok acc ->
  length acc = (2 * String.length seq)%nat /\
  exists prof,
    get_one_seq_per_base_scores seq reads true threads = Ok prof /\
    length prof = String.length seq /\
    forall i, (i < String.length seq)%nat ->
      exists x y,
        acc !! i = Some x /\ acc !! (i + String.length seq)%nat = Some y /\
        prof !! i = Some (Z.max x y).
Proof.
  intros Hacc. rewrite get_one_seq_circular, Hacc. cbn [mbind result_bind].
  apply accumulate_Ok in Hacc as (Hlen & _).
  rewrite slen_append in Hlen. unfold slen, len in Hlen.
  set (L := String.length seq) in *.
  assert (length acc = (2 * L)%nat) as Hlen' by lia.
  split; [done|]. eexists. split; [done|]. split.
  - rewrite length_zip_with, length_take, length_drop. lia.
  - intros i Hi.
    destruct (lookup_lt_is_Some_2 acc i) as [x Hx]; [lia|].
    destruct (lookup_lt_is_Some_2 acc (i + L)) as [y Hy]; [lia|].
    exists x, y. split; [done|]. split; [done|].
    rewrite lookup_zip_with, lookup_take_lt, lookup_drop by done.
    rewrite Hx. cbn [mbind option_bind]. rewrite (Nat.add_comm L i), Hy. done.
Qed.

(** C6: whatever profile the pipeline returns for a sequence, linear or
    circular, has the sequence's length and no negative entry; and no
    directional score, forward or reverse, is negative. *)
Theorem profile_length_and_sign (seq : string) (reads : Reads) (circular : bool)
    (threads : Z) (prof : list Z) :
  get_one_seq_per_base_scores seq reads circular threads = Ok prof ->
  len prof = slen seq /\ nonneg prof /\
  forall ec pf scores : list Z,
    get_cigar_scores_forward ec pf = Ok scores \/
    get_cigar_scores_reverse ec pf = Ok scores ->
    nonneg scores.
Proof.
  intros Hrun. split; [|split].
  - destruct circular.
    + rewrite get_one_seq_circular in Hrun. bind_ok Hrun. injection Hrun as <-.
      apply accumulate_Ok in E as (Hlen & _).
      rewrite slen_append in Hlen. unfold slen, len in *.
      rewrite length_zip_with, length_take, length_drop. lia.
    + rewrite get_one_seq_linear in Hrun.
      by apply accumulate_Ok in Hrun as (Hlen & _).
  - destruct circular.
    + rewrite get_one_seq_circular in Hrun. bind_ok Hrun. injection Hrun as <-.
      apply accumulate_Ok in E as (_ & Hnn & _).
      apply zip_with_max_nonneg. by apply Forall_take.
    + rewrite get_one_seq_linear in Hrun.
      by apply accumulate_Ok in Hrun as (_ & Hnn & _).
  - intros ec pf scores [H|H].
    + by apply forward_scores_inv in H as [? _].
    + by apply reverse_scores_inv in H as [? _].
Qed.

(** What is kept and what is dropped make up what came back. *)
Lemma filter_lt_ge_length (L : Z) (l : list Alignment) :
  (length (filter (fun a => (ref_start a < L)%Z) l)
   + length (filter (fun a => (ref_start a >= L)%Z) l) = length l)%nat.
Proof.
  induction l as [|a l IH]; [done|].
  rewrite !filter_cons. destruct (decide (ref_start a < L)).
  - rewrite decide_False by lia. cbn [length]. lia.
  - rewrite decide_True by lia. cbn [length]. lia.
Qed.

Lemma filter_spec_discard (L : Z) (l : list Alignment) :
  filter (fun a => ref_start a < L) l = spec_discard L l.
Proof.
  induction l as [|a l IH]; [done|].
  rewrite filter_cons. cbn [spec_discard]. rewrite <- IH.
  destruct (Z.geb_spec (ref_start a) L).
  - by rewrite decide_False by lia.
  - by rewrite decide_True by lia.
Qed.

(** C7: for a circular sequence of length [L] the reads are aligned to the
    sequence followed by itself, and of the alignments that come back exactly
    those with [ref_start < L] are kept, each as often as it came back and in
    the order in which they came back (so exactly those with
    [ref_start >= L] are dropped: the list that is kept is the list that came
    back with these discarded one by one, and the kept and the dropped
    together are as many as came back), and these are the alignments that are
    scored; for a linear sequence the reads are aligned to the sequence and
    every alignment that comes back is scored. *)
Theorem second_half_alignments_discarded (seq : string) (reads : Reads) (threads : Z) :
  let returned := align_reads_to_seq reads (seq ++ seq) threads in
  let kept := (select_alignments seq reads true threads).2 in
  (select_alignments seq reads true threads).1 = (seq ++ seq)%string /\
  kept = filter (fun a => ref_start a < slen seq) returned /\
  kept = spec_discard (slen seq) returned /\
  (length kept + length (filter (fun a => (ref_start a >= slen seq)%Z) returned)
   = length returned)%nat /\
  kept `sublist_of` returned /\
  (forall a, a ∈ kept <-> a ∈ returned /\ ref_start a < slen seq) /\
  (forall a, a ∈ returned -> (a ∉ kept <-> ref_start a >= slen seq)) /\
  get_one_seq_per_base_scores seq reads true threads
  = (acc ← accumulate (seq ++ seq) kept; undouble (slen seq) acc) /\
  select_alignments seq reads false threads
  = (seq, align_reads_to_seq reads seq threads) /\
  get_one_seq_per_base_scores seq reads false threads
  = accumulate seq (align_reads_to_seq reads seq threads).
Proof.
  cbv zeta. split; [done|]. split; [done|].
  split; [apply filter_spec_discard|].
  split; [apply filter_lt_ge_length|]. split; [apply sublist_filter|].
  split; [|split; [|split; [|split; [done|apply get_one_seq_linear]]]].
  - intros a. unfold select_alignments. cbn [snd].
    rewrite list_elem_of_filter. tauto.
  - intros a Ha. unfold select_alignments. cbn [snd].
    rewrite list_elem_of_filter. split.
    + intros Hnot. destruct (Z_lt_ge_dec (ref_start a) (slen seq)); [|done].
      destruct Hnot. done.
    + intros Hge [Hlt _]. lia.
  - unfold get_one_seq_per_base_scores, select_alignments. cbn [snd].
    destruct (accumulate _ _) as [acc|]; [|done]. cbn [mbind result_bind].
    by destruct (undouble _ _).
Qed.

(** C8 (amended): for a linear sequence the sum of the entries of the
    finalized profile equals the sum, over the alignments, of the sums of
    their combined scores.  For a circular sequence that holds of the doubled
    accumulator before it is folded, over the alignments that are kept, and
    the sum of the folded profile is at most it. *)
Theorem total_score_additivity (seq : string) (reads : Reads) (circular : bool)
    (threads : Z) (prof : list Z) :
  get_one_seq_per_base_scores seq reads circular threads = Ok prof ->
  let '(ref_seq, alignments) := select_alignments seq reads circular threads in
  exists acc css,
    accumulate ref_seq alignments = Ok acc /\
    Forall2 (fun a cs => get_alignment_scores a = Ok cs) alignments css /\
    sum acc = sum (sum <$> css) /\
    if circular then sum prof <= sum (sum <$> css)
    else prof = acc /\ sum prof = sum (sum <$> css).
Proof.
  intros Hrun. destruct circular.
  - rewrite get_one_seq_circular in Hrun. unfold select_alignments in *.
    cbn [snd] in Hrun. bind_ok Hrun. injection Hrun as <-.
    destruct (accumulate_Ok _ _ _ E) as (Hlen & Hnn & css & Hcss & Hsum).
    exists a, css. split; [done|]. split; [done|]. split; [done|].
    rewrite <- Hsum. rewrite <- (take_drop (String.length seq) a) at 3.
    rewrite sum_app. apply sum_zip_with_max_le.
    + by apply Forall_take.
    + by apply Forall_drop.
  - rewrite get_one_seq_linear in Hrun. unfold select_alignments.
    destruct (accumulate_Ok _ _ _ Hrun) as (Hlen & Hnn & css & Hcss & Hsum).
    exists prof, css. eauto.
Qed.


(** ** Accumulation stays inside the accumulator *)

Lemma add_score_in_range (a : Alignment) (pbs : list Z) (j s : Z) :
  0 <= ref_start a + j < len pbs ->
  exists old,
    pbs !! Z.to_nat (ref_start a + j) = Some old /\
    add_score a pbs (j, s) = Ok (<[Z.to_nat (ref_start a + j):=old + s]> pbs).
Proof.
  intros Hj. unfold add_score, getitem, setitem.
  rewrite py_index_in_range by (unfold len in *; lia).
  destruct (lookup_lt_is_Some_2 pbs (Z.to_nat (ref_start a + j))) as [old Hold];
    [unfold len in *; lia|].
  exists old. by rewrite Hold.
Qed.

(** Adding the scores from offset [off] on, when the positions they go to
    lie inside the accumulator. *)
Lemma add_scores_loop (a : Alignment) (scores : list Z) : forall (off : Z) (pbs : list Z),
  0 <= ref_start a + off -> ref_start a + off + len scores <= len pbs ->
  exists pbs',
    for_each (add_score a) (zip ((fun k => off + k) <$> range (len scores)) scores) pbs
    = Ok pbs' /\
    length pbs' = length pbs /\
    forall k : nat,
      ~ (ref_start a + off <= Z.of_nat k < ref_start a + off + len scores) ->
      pbs' !! k = pbs !! k.
Proof.
  induction scores as [|s scores IH]; intros off pbs Hlo Hhi.
  - exists pbs. done.
  - rewrite len_cons in Hhi.
    rewrite range_len_cons, fmap_cons, Z.add_0_r. cbn [zip zip_with for_each].
    destruct (add_score_in_range a pbs off s) as (old & Hold & ->);
      [unfold len in *; lia|].
    cbn [mbind result_bind].
    destruct (IH (off + 1) (<[Z.to_nat (ref_start a + off):=old + s]> pbs))
      as (pbs' & Hrun & Hlen & Hout).
    { lia. }
    { unfold len in *. rewrite length_insert. lia. }
    exists pbs'. rewrite length_insert in Hlen.
    split; [|split; [done|]].
    + rewrite <- Hrun, <- list_fmap_compose. do 2 f_equal.
      apply list_fmap_ext. intros _ k _. simpl. lia.
    + intros k Hk. rewrite len_cons in Hk. rewrite Hout by lia.
      apply list_lookup_insert_ne. unfold len in *. lia.
Qed.

(** The loop over an alignment's scores, when the alignment lies inside the
    accumulator. *)
Lemma add_scores_enumerate (a : Alignment) (scores pbs : list Z) :
  0 <= ref_start a -> ref_start a + len scores <= len pbs ->
  exists pbs',
    for_each (add_score a) (enumerate scores) pbs = Ok pbs' /\
    length pbs' = length pbs /\
    forall k : nat,
      ~ (ref_start a <= Z.of_nat k < ref_start a + len scores) -> pbs' !! k = pbs !! k.
Proof.
  intros H0 Hend.
  destruct (add_scores_loop a scores 0 pbs) as (pbs' & Hrun & Hlen' & Hout); [lia|lia|].
  exists pbs'. split; [|split; [done|]].
  - rewrite <- Hrun. unfold enumerate. do 2 f_equal.
    rewrite <- (list_fmap_id (range (len scores))) at 1.
    apply list_fmap_ext. intros _ k _. simpl. lia.
  - intros k Hk. apply Hout. lia.
Qed.

(** The loop over the alignments raises nothing when every alignment lies
    inside the accumulator and has scores. *)
Lemma accumulate_loop_total (xs : list (Z * Alignment)) : forall pbs : list Z,
  Forall (fun x : Z * Alignment =>
            0 <= ref_start x.2 <= ref_end x.2 /\ ref_end x.2 <= len pbs /\
            exists cs, get_alignment_scores x.2 = Ok cs) xs ->
  exists acc, for_each add_alignment xs pbs = Ok acc /\ length acc = length pbs.
Proof.
  induction xs as [|[i a] xs IH]; intros pbs Hxs.
  - by exists pbs.
  - apply Forall_cons_1 in Hxs as [(Hstart & Hend & cs & Hcs) Hxs]. simpl in *.
    cbn [for_each]. unfold add_alignment at 1. rewrite Hcs.
    cbn [mbind result_bind].
    destruct (get_alignment_scores_Ok _ _ Hcs)
      as (_ & _ & _ & _ & _ & _ & _ & _ & _ & Hlen & _).
    destruct (add_scores_enumerate a cs pbs) as (pbs' & -> & Hlen' & _);
      [lia|unfold len in *; lia|].
    cbn [mbind result_bind].
    destruct (IH pbs') as (acc & Hrun & Hacc).
    { eapply List.Forall_impl; [|exact Hxs]. intros x (? & ? & ?).
      unfold len in *. rewrite Hlen'. done. }
    exists acc. split; [done|congruence].
Qed.

(** C10: for an alignment with [0 <= ref_start < ref_end <= len] of the
    accumulator, and scores of length [ref_end - ref_start], every position
    [ref_start + j] that the accumulation writes is a position of the
    accumulator, counted from its start (no negative index wraps around); the
    accumulation raises no [IndexError], keeps the accumulator's length and
    leaves every position outside [ref_start, ref_end) as it was.  The scores
    that [get_alignment_scores] returns have that length, so building the
    profile from alignments that lie inside the reference and have scores
    raises nothing. *)
Theorem accumulation_within_bounds (a : Alignment) (scores pbs : list Z) :
  0 <= ref_start a -> ref_start a < ref_end a -> ref_end a <= len pbs ->
  len scores = ref_end a - ref_start a ->
  (forall j, 0 <= j < len scores ->
     0 <= ref_start a + j < len pbs /\
     py_index (length pbs) (ref_start a + j) = Some (Z.to_nat (ref_start a + j))) /\
  (exists pbs',
     for_each (add_score a) (enumerate scores) pbs = Ok pbs' /\
     length pbs' = length pbs /\
     forall k : nat, ~ (ref_start a <= Z.of_nat k < ref_end a) -> pbs' !! k = pbs !! k) /\
  (forall cs, get_alignment_scores a = Ok cs -> len cs = ref_end a - ref_start a) /\
  (forall (ref_seq : string) (alignments : list Alignment),
     Forall (fun b => 0 <= ref_start b < ref_end b /\ ref_end b <= slen ref_seq /\
                      exists cs, get_alignment_scores b = Ok cs) alignments ->
     exists acc, accumulate ref_seq alignments = Ok acc /\ len acc = slen ref_seq).
Proof.
  intros H0 Hlt Hend Hlen. split; [|split; [|split]].
  - intros j Hj. split; [lia|]. apply py_index_in_range. unfold len in *. lia.
  - destruct (add_scores_enumerate a scores pbs) as (pbs' & Hrun & Hlen' & Hout);
      [lia|lia|].
    exists pbs'. split; [done|]. split; [done|].
    intros k Hk. apply Hout. lia.
  - intros cs (_ & _ & _ & _ & _ & _ & _ & _ & _ & Hcs & _)%get_alignment_scores_Ok.
    unfold len. lia.
  - intros ref_seq alignments Hall. unfold accumulate.
    destruct (accumulate_loop_total (enumerate alignments) (zeros (slen ref_seq)))
      as (acc & Hrun & Hacc).
    + assert (Forall (fun b => 0 <= ref_start b <= ref_end b /\
                               ref_end b <= len (zeros (slen ref_seq)) /\
                               exists cs, get_alignment_scores b = Ok cs)
                (enumerate alignments).*2) as Hsnd.
      { rewrite enumerate_snd.
        eapply List.Forall_impl; [|exact Hall]. intros b (Hb & Hbe & Hcs). simpl.
        unfold len, slen in *. rewrite length_zeros.
        split; [lia|]. split; [lia|done]. }
      rewrite Forall_fmap in Hsnd. exact Hsnd.
    + exists acc. split; [done|].
      rewrite length_zeros in Hacc. unfold len, slen in *. lia.
Qed.

(** ** CIGAR expander: the pattern's matches *)









(** ** CIGAR expander: the loops *)




Lemma zeros_add (n m : Z) : 0 <= n -> 0 <= m -> zeros (n + m) = zeros n ++ zeros m.
Proof.
  intros Hn Hm. unfold zeros. rewrite Z2Nat.inj_add by done.
  apply replicate_add.
Qed.





(** ** CIGAR expander: what lies between the matches *)
















(** ** Sums over stretches of integers *)

Lemma zsum_0 (f : Z -> Z) (a : Z) : zsum f a 0 = 0.
Proof. reflexivity. Qed.

Lemma zsum_S (f : Z -> Z) (a : Z) (m : nat) :
  zsum f a (S m) = zsum f a m + f (a + Z.of_nat m).
Proof.
  unfold zsum. rewrite range_S, fmap_app, sum_app. cbn [fmap list_fmap].
  rewrite sum_cons. change (sum []) with 0. lia.
Qed.

Lemma zsum_ext (f g : Z -> Z) (a : Z) (m : nat) :
  (forall j, a <= j < a + Z.of_nat m -> f j = g j) -> zsum f a m = zsum g a m.
Proof.
  induction m as [|m IH]; intros Hfg; [done|].
  rewrite !zsum_S, IH, Hfg; [done|lia|]. intros j Hj. apply Hfg. lia.
Qed.

Lemma zsum_nonneg (f : Z -> Z) (a : Z) (m : nat) :
  (forall j, 0 <= f j) -> 0 <= zsum f a m.
Proof.
  intros Hf. induction m as [|m IH]; [done|].
  rewrite zsum_S. specialize (Hf (a + Z.of_nat m)). lia.
Qed.

(** A sum over [a, a + m) of a function that is zero outside [c, d) is the
    sum over the part of the stretch that lies in [c, d). *)
Lemma zsum_restrict (f : Z -> Z) (c d a : Z) (m : nat) :
  (forall j, ~ (c <= j < d) -> f j = 0) ->
  zsum f a m
  = zsum f (Z.max a c) (Z.to_nat (Z.min (a + Z.of_nat m) d - Z.max a c)).
Proof.
  intros Hout. induction m as [|m IH].
  - replace (Z.to_nat _) with 0%nat by lia. done.
  - rewrite zsum_S, IH.
    destruct (Z_lt_ge_dec (a + Z.of_nat m) c) as [Hlt|Hge];
      [|destruct (Z_lt_ge_dec (a + Z.of_nat m) d) as [Hin|Hbig]].
    + rewrite Hout by lia.
      replace (Z.to_nat (Z.min (a + Z.of_nat m) d - Z.max a c)) with 0%nat by lia.
      replace (Z.to_nat (Z.min (a + Z.of_nat (S m)) d - Z.max a c)) with 0%nat by lia.
      lia.
    + replace (Z.to_nat (Z.min (a + Z.of_nat (S m)) d - Z.max a c))
        with (S (Z.to_nat (Z.min (a + Z.of_nat m) d - Z.max a c))) by lia.
      rewrite zsum_S. do 2 f_equal. lia.
    + rewrite Hout by lia.
      replace (Z.min (a + Z.of_nat (S m)) d) with (Z.min (a + Z.of_nat m) d) by lia.
      lia.
Qed.

(** The sum over a window of a function that is zero outside [0, n) is the
    sum over [0, n) of the function cut down to the window. *)
Lemma zsum_window (g : Z -> Z) (n w : nat) (lo : Z) :
  (forall j, ~ (0 <= j < Z.of_nat n) -> g j = 0) ->
  zsum g lo w
  = zsum (fun j => if (lo <=? j) && (j <? lo + Z.of_nat w) then g j else 0) 0 n.
Proof.
  intros Hout.
  rewrite (zsum_restrict g 0 (Z.of_nat n) lo w) by done.
  rewrite (zsum_restrict _ lo (lo + Z.of_nat w) 0 n).
  2:{ intros j Hj. destruct (Z.leb_spec lo j), (Z.ltb_spec j (lo + Z.of_nat w));
        simpl; try done. lia. }
  replace (Z.max 0 lo) with (Z.max lo 0) by lia.
  replace (Z.min (0 + Z.of_nat n) (lo + Z.of_nat w))
    with (Z.min (lo + Z.of_nat w) (Z.of_nat n)) by lia.
  apply zsum_ext. intros j Hj.
  destruct (Z.leb_spec lo j), (Z.ltb_spec j (lo + Z.of_nat w)); simpl; try done; lia.
Qed.

Lemma lookup_range (n : Z) (i : nat) (x : Z) :
  range n !! i = Some x -> x = Z.of_nat i /\ (i < Z.to_nat n)%nat.
Proof.
  unfold range. rewrite list_lookup_fmap.
  destruct (seq 0 (Z.to_nat n) !! i) as [k|] eqn:Hk; [|done].
  apply lookup_seq in Hk as [-> Hi]. by intros [= <-].
Qed.

(** A sum over the numbered entries of a list as a sum over their
    positions. *)
Lemma sum_enumerate (phi : Z * Z -> Z) (g : Z -> Z) (l : list Z) :
  (forall (k : nat) x, l !! k = Some x -> g (Z.of_nat k) = phi (Z.of_nat k, x)) ->
  sum (phi <$> enumerate l) = zsum g 0 (length l).
Proof.
  induction l as [|x l IH] using rev_ind; intros Hg; [done|].
  unfold enumerate. rewrite length_app. simpl length. rewrite Nat.add_1_r.
  rewrite zsum_S, <- IH.
  2:{ intros k y Hk. apply Hg. by apply lookup_app_l_Some. }
  unfold len. rewrite length_app. simpl length. rewrite Nat.add_1_r, range_S.
  rewrite zip_with_app by (rewrite length_range; lia).
  rewrite fmap_app, sum_app. cbn [zip_with fmap list_fmap].
  rewrite sum_cons. change (sum []) with 0.
  rewrite Z.add_0_l, (Hg (length l) x) by apply list_lookup_middle, eq_refl.
  unfold enumerate, len. lia.
Qed.


(** ** Window failure detector *)

Lemma elem0_outside (a : list Z) (j : Z) : ~ (0 <= j < len a) -> elem0 a j = 0.
Proof.
  intros Hj. unfold elem0. destruct (Z.ltb_spec j 0); [done|].
  rewrite lookup_ge_None_2; [done|]. unfold len in Hj. lia.
Qed.

Lemma elem0_lookup (a : list Z) (k : nat) (x : Z) :
  a !! k = Some x -> elem0 a (Z.of_nat k) = x.
Proof.
  intros Hk. unfold elem0. destruct (Z.ltb_spec (Z.of_nat k) 0); [lia|].
  by rewrite Nat2Z.id, Hk.
Qed.

Lemma elem0_replicate_zero (n : nat) (j : Z) : elem0 (replicate n 0) j = 0.
Proof.
  unfold elem0. destruct (j <? 0); [done|].
  destruct (replicate n 0 !! Z.to_nat j) as [x|] eqn:Hx; [|done].
  by apply lookup_replicate in Hx as [-> _].
Qed.

Lemma simplified_nonmatch (ec : list Z) :
  op_codes ec -> mask_assign (fun x => x >? 1) 1 ec = spec_nonmatch <$> ec.
Proof.
  intros Hec. unfold mask_assign. apply list_fmap_ext.
  intros _ x Hx%(Forall_lookup_1 _ _ _ _ Hec). unfold spec_nonmatch.
  rewrite Z.gtb_ltb. destruct (Z.ltb_spec 1 x), (Z.eqb_spec x 0); lia.
Qed.

Lemma np_ones_Ok (w : nat) : np_ones (Z.of_nat w) = Ok (replicate w 1).
Proof.
  unfold np_ones. destruct (Z.ltb_spec (Z.of_nat w) 0); [lia|].
  by rewrite Nat2Z.id.
Qed.

(** The correlation with a window of ones: the sums of the array over the
    windows. *)
Lemma correlate_ones (a : list Z) (w : nat) :
  np_correlate_same a (replicate w 1)
  = (fun i => zsum (elem0 a) (i - Z.of_nat w / 2) w) <$> range (len a).
Proof.
  unfold np_correlate_same, zsum, len. rewrite length_replicate.
  apply list_fmap_ext. intros _ i _. f_equal.
  apply list_fmap_ext. intros k x [-> Hk]%lookup_range.
  rewrite (elem0_lookup _ k 1) by (apply lookup_replicate_2; lia).
  rewrite Z.mul_1_r. f_equal. lia.
Qed.

(** The two assignments through a mask, one after the other, on a count that
    is not negative. *)
Lemma threshold_count (T c : Z) :
  0 <= c ->
  (fun x => if x >=? T then 1 else x) ((fun x => if x <? T then 0 else x) c)
  = spec_mask T c.
Proof.
  intros Hc. unfold spec_mask. simpl. rewrite !Z.geb_leb.
  destruct (Z.ltb_spec c T), (Z.leb_spec T 0), (Z.leb_spec T c); lia.
Qed.

Lemma spec_nonmatch_range (op : Z) : 0 <= spec_nonmatch op.
Proof. unfold spec_nonmatch. destruct (op =? 0); lia. Qed.

Lemma half_widths (W : Z) : W / 2 + (W - 1) / 2 = W - 1.
Proof.
  pose proof (Z.div_mod W 2). pose proof (Z.mod_pos_bound W 2).
  pose proof (Z.div_mod (W - 1) 2). pose proof (Z.mod_pos_bound (W - 1) 2).
  lia.
Qed.

(** The windowed sum that the convolution takes at column [i] is the number
    of non-match columns in the window around [i]. *)
Lemma window_sum_is_count (ec : list Z) (w : nat) (i : Z) :
  zsum (elem0 (spec_nonmatch <$> ec)) (i - Z.of_nat w / 2) w
  = spec_window_count (Z.of_nat w) ec i.
Proof.
  rewrite (zsum_window _ (length ec)).
  2:{ intros j Hj. apply elem0_outside. unfold len. by rewrite length_fmap. }
  unfold spec_window_count. symmetry. apply sum_enumerate.
  intros k x Hk.
  rewrite (elem0_lookup _ k (spec_nonmatch x)) by (by rewrite list_lookup_fmap, Hk).
  pose proof (half_widths (Z.of_nat w)).
  destruct (Z.leb_spec (i - Z.of_nat w / 2) (Z.of_nat k)); simpl; [|done].
  destruct (Z.ltb_spec (Z.of_nat k) (i - Z.of_nat w / 2 + Z.of_nat w)),
    (Z.leb_spec (Z.of_nat k) (i + (Z.of_nat w - 1) / 2)); try done; lia.
Qed.

Lemma spec_window_count_nonneg (W : Z) (ec : list Z) (i : Z) :
  0 <= spec_window_count W ec i.
Proof.
  unfold spec_window_count. apply sum_nonneg. rewrite Forall_fmap.
  apply Forall_forall. intros [j op] _. simpl.
  destruct (_ && _); [apply spec_nonmatch_range|lia].
Qed.

(** For an expanded CIGAR of at least one window of columns, the detector
    returns the mask of the specification. *)
Lemma get_pass_fail_spec (ec : list Z) :
  op_codes ec -> 1 <= BASE_SCORE_WINDOW -> BASE_SCORE_WINDOW <= len ec ->
  get_pass_fail ec = Ok (spec_pass_fail BASE_SCORE_WINDOW BASE_SCORE_THRESHOLD ec).
Proof.
  intros Hec Hw Hn. unfold get_pass_fail.
  rewrite simplified_nonmatch by done.
  rewrite <- (Z2Nat.id BASE_SCORE_WINDOW) by lia.
  set (w := Z.to_nat BASE_SCORE_WINDOW).
  rewrite np_ones_Ok. cbn [mbind result_bind].
  unfold np_convolve_same.
  assert (len (replicate w 1) = Z.of_nat w) as Hlw
    by (unfold len; by rewrite length_replicate).
  assert (len (spec_nonmatch <$> ec) = len ec) as Hle
    by (unfold len; by rewrite length_fmap).
  rewrite Hlw, Hle.
  replace (Z.of_nat w >? len ec) with false
    by (symmetry; rewrite Z.gtb_ltb; apply Z.ltb_ge; lia).
  rewrite Hlw, Hle.
  replace (len ec =? 0) with false by (symmetry; apply Z.eqb_neq; lia).
  replace (Z.of_nat w =? 0) with false by (symmetry; apply Z.eqb_neq; lia).
  cbn [mbind result_bind]. f_equal.
  rewrite reverse_replicate, correlate_ones, Hle.
  unfold mask_assign, spec_pass_fail. rewrite <- !list_fmap_compose.
  apply list_fmap_ext. intros _ i _. cbn [compose].
  rewrite window_sum_is_count.
  apply threshold_count, spec_window_count_nonneg.
Qed.


(** C4 (amended): for an expanded CIGAR that has at least [window_size]
    columns, [window_size] being at least 1, the detector returns a mask of
    the CIGAR's length, and the mask's value at a column is 0 when fewer than
    [fail_threshold] columns of the window around it (cut off at the ends of
    the alignment) are non-matches, and 1 otherwise. *)
Theorem window_mask_of_counts (expanded_cigar : list Z) :
  op_codes expanded_cigar ->
  1 <= BASE_SCORE_WINDOW -> BASE_SCORE_WINDOW <= len expanded_cigar ->
  exists pass_fail,
    get_pass_fail expanded_cigar = Ok pass_fail /\
    length pass_fail = length expanded_cigar /\
    forall i : nat, (i < length expanded_cigar)%nat ->
      pass_fail !! i
      = Some (if spec_window_count BASE_SCORE_WINDOW expanded_cigar (Z.of_nat i)
                 <? BASE_SCORE_THRESHOLD
              then 0 else 1).
Proof.
  intros Hec Hw Hn. eexists. split; [by apply get_pass_fail_spec|].
  unfold spec_pass_fail, range, len. rewrite Nat2Z.id. split.
  - by rewrite !length_fmap, length_seq.
  - intros i Hi. rewrite !list_lookup_fmap, lookup_seq_lt by done.
    reflexivity.
Qed.

(** ** An alignment of matches only *)

Lemma sum_replicate_zero (m : nat) : sum (replicate m 0) = 0.
Proof. induction m as [|m IH]; [done|]. cbn [replicate]. rewrite sum_cons. lia. Qed.

Lemma correlate_zeros_l (n : nat) (v : list Z) :
  np_correlate_same (replicate n 0) v = replicate n 0.
Proof.
  unfold np_correlate_same.
  rewrite (const_fmap _ (range (len (replicate n 0))) 0).
  - rewrite length_range. unfold len. by rewrite Nat2Z.id, length_replicate.
  - intros _ i _. rewrite (const_fmap _ (range (len v)) 0).
    + apply sum_replicate_zero.
    + intros _ k _. by rewrite elem0_replicate_zero.
Qed.

Lemma correlate_zeros_r (a : list Z) (m : nat) :
  np_correlate_same a (replicate m 0) = replicate (length a) 0.
Proof.
  unfold np_correlate_same.
  rewrite (const_fmap _ (range (len a)) 0).
  - rewrite length_range. unfold len. by rewrite Nat2Z.id.
  - intros _ i _. rewrite (const_fmap _ (range (len (replicate m 0))) 0).
    + apply sum_replicate_zero.
    + intros _ k _. rewrite elem0_replicate_zero. lia.
Qed.

(** Over matches only no window counts a non-match, and with a threshold of
    at least 1 no column fails. *)
Lemma get_pass_fail_all_match (n : nat) :
  (1 <= n)%nat -> 1 <= BASE_SCORE_WINDOW -> 1 <= BASE_SCORE_THRESHOLD ->
  get_pass_fail (replicate n 0)
  = Ok (replicate (Nat.max n (Z.to_nat BASE_SCORE_WINDOW)) 0).
Proof.
  intros Hn Hw Ht. unfold get_pass_fail.
  unfold mask_assign at 3. rewrite fmap_replicate. simpl (if 0 >? 1 then _ else _).
  rewrite <- (Z2Nat.id BASE_SCORE_WINDOW) by lia.
  set (w := Z.to_nat BASE_SCORE_WINDOW). rewrite Nat2Z.id.
  rewrite np_ones_Ok. cbn [mbind result_bind].
  unfold np_convolve_same, len. rewrite !length_replicate.
  assert (forall k : nat, mask_assign (fun x => x >=? BASE_SCORE_THRESHOLD) 1
            (mask_assign (fun x => x <? BASE_SCORE_THRESHOLD) 0 (replicate k 0))
          = replicate k 0) as Hmask.
  { intros k. unfold mask_assign. rewrite !fmap_replicate. f_equal.
    rewrite Z.geb_leb.
    destruct (Z.ltb_spec 0 BASE_SCORE_THRESHOLD); [|lia].
    destruct (Z.leb_spec BASE_SCORE_THRESHOLD 0); [lia|done]. }
  rewrite Z.gtb_ltb.
  destruct (Z.ltb_spec (Z.of_nat n) (Z.of_nat w)) as [Hlt|Hge].
  - rewrite !length_replicate.
    replace (Z.of_nat w =? 0) with false by (symmetry; apply Z.eqb_neq; lia).
    replace (Z.of_nat n =? 0) with false by (symmetry; apply Z.eqb_neq; lia).
    cbn [mbind result_bind].
    rewrite reverse_replicate, correlate_zeros_r, length_replicate, Hmask.
    do 2 f_equal. lia.
  - rewrite !length_replicate.
    replace (Z.of_nat w =? 0) with false by (symmetry; apply Z.eqb_neq; lia).
    replace (Z.of_nat n =? 0) with false by (symmetry; apply Z.eqb_neq; lia).
    cbn [mbind result_bind].
    rewrite correlate_zeros_l, Hmask. do 2 f_equal. lia.
Qed.

(** C9: for the alignment with [ref_start = 0], [ref_end = 10] and CIGAR
    [10=], under a window of at least one column and a threshold of at least
    1 (the windows count no non-match, so none reaches the threshold), no
    column fails, the forward scores climb from 1 to 10, the reverse scores
    climb from 1 to 10 from the right, and the combined scores are
    [1,2,3,4,5,5,4,3,2,1]. *)
Theorem ten_matches_ramp :
  1 <= BASE_SCORE_WINDOW -> 1 <= BASE_SCORE_THRESHOLD ->
  let a := mkAlignment 0 10 "10=" in
  exists expanded_cigar pass_fail,
    get_expanded_cigar a = Ok expanded_cigar /\
    get_pass_fail expanded_cigar = Ok pass_fail /\
    Forall (fun x => x = 0) pass_fail /\
    get_cigar_scores_forward expanded_cigar pass_fail
    = Ok [1; 2; 3; 4; 5; 6; 7; 8; 9; 10] /\
    get_cigar_scores_reverse expanded_cigar pass_fail
    = Ok [10; 9; 8; 7; 6; 5; 4; 3; 2; 1] /\
    get_alignment_scores a = Ok [1; 2; 3; 4; 5; 5; 4; 3; 2; 1].
Proof.
  intros Hw Ht a.
  assert (get_expanded_cigar a = Ok (replicate 10 0)) as Hec by reflexivity.
  pose proof (get_pass_fail_all_match 10 ltac:(lia) Hw Ht) as Hpf.
  set (k := Nat.max 10 (Z.to_nat BASE_SCORE_WINDOW)) in *.
  assert (get_cigar_scores_forward (replicate 10 0) (replicate k 0)
          = Ok [1; 2; 3; 4; 5; 6; 7; 8; 9; 10]) as Hfwd.
  { rewrite forward_scan by (rewrite !length_replicate; lia).
    rewrite <- zip_with_take_r, take_replicate, length_replicate.
    replace (Nat.min 10 k) with 10%nat by lia. reflexivity. }
  assert (get_cigar_scores_reverse (replicate 10 0) (replicate k 0)
          = Ok [10; 9; 8; 7; 6; 5; 4; 3; 2; 1]) as Hrev.
  { rewrite reverse_scan by (rewrite !length_replicate; lia).
    rewrite take_replicate, length_replicate.
    replace (Nat.min 10 k) with 10%nat by lia. reflexivity. }
  exists (replicate 10 0), (replicate k 0).
  split; [done|]. split; [done|]. split; [by apply Forall_replicate|].
  split; [done|]. split; [done|].
  unfold get_alignment_scores. rewrite Hec. cbn [mbind result_bind].
  rewrite Hpf. cbn [mbind result_bind]. rewrite Hfwd. cbn [mbind result_bind].
  rewrite Hrev. cbn [mbind result_bind]. reflexivity.
Qed.

(** * Further properties *)

(** ** CIGAR expander: shape of the expansion, and token sequences *)






(** ** Window failure detector: when it raises, and the shape of the mask *)

Lemma length_correlate (a v : list Z) : length (np_correlate_same a v) = length a.
Proof.
  unfold np_correlate_same. rewrite length_fmap, length_range.
  unfold len. apply Nat2Z.id.
Qed.

Lemma np_convolve_same_Ok (a v c : list Z) :
  np_convolve_same a v = Ok c ->
  a <> [] /\ v <> [] /\
  c = (if len v >? len a then np_correlate_same v (reverse a)
       else np_correlate_same a (reverse v)).
Proof.
  unfold np_convolve_same, len.
  destruct a as [|x a], v as [|y v]; simpl length;
    destruct (_ >? _); simpl; try done; by intros [= <-].
Qed.

Lemma np_convolve_same_nonempty (a v : list Z) :
  a <> [] -> v <> [] ->
  np_convolve_same a v
  = Ok (if len v >? len a then np_correlate_same v (reverse a)
        else np_correlate_same a (reverse v)).
Proof.
  unfold np_convolve_same, len.
  destruct a as [|x a], v as [|y v]; simpl length; try done.
  intros _ _. by destruct (_ >? _).
Qed.

Lemma np_convolve_same_empty (a v : list Z) :
  a = [] \/ v = [] -> np_convolve_same a v = Raise ValueError.
Proof.
  unfold np_convolve_same, len.
  destruct a as [|x a], v as [|y v]; simpl length; intros [H|H]; try done;
    by destruct (_ >? _).
Qed.

Lemma threshold_binary (T x : Z) :
  let y := (fun x => if x >=? T then 1 else x) ((fun x => if x <? T then 0 else x) x) in
  y = 0 \/ y = 1.
Proof.
  simpl. rewrite !Z.geb_leb.
  destruct (Z.ltb_spec x T), (Z.leb_spec T 0), (Z.leb_spec T x); lia.
Qed.

(** The two ways [get_pass_fail] can end. *)
Lemma get_pass_fail_cases (expanded_cigar : list Z) :
  (BASE_SCORE_WINDOW <= 0 \/ expanded_cigar = [] ->
   get_pass_fail expanded_cigar = Raise ValueError) /\
  (1 <= BASE_SCORE_WINDOW -> expanded_cigar <> [] ->
   exists pass_fail,
     get_pass_fail expanded_cigar = Ok pass_fail /\
     length pass_fail
     = Nat.max (length expanded_cigar) (Z.to_nat BASE_SCORE_WINDOW) /\
     Forall (fun x => x = 0 \/ x = 1) pass_fail).
Proof.
  unfold get_pass_fail, np_ones. split.
  - intros Hbad. destruct (Z.ltb_spec BASE_SCORE_WINDOW 0) as [|Hge]; [done|].
    cbn [mbind result_bind]. rewrite np_convolve_same_empty; [done|].
    destruct Hbad as [Hw| ->]; [right|by left].
    by replace BASE_SCORE_WINDOW with 0 by lia.
  - intros Hw Hec. destruct (Z.ltb_spec BASE_SCORE_WINDOW 0) as [|_]; [lia|].
    cbn [mbind result_bind].
    set (w := Z.to_nat BASE_SCORE_WINDOW).
    assert (w <> 0%nat) as Hw0 by lia.
    rewrite np_convolve_same_nonempty; [|by destruct expanded_cigar|by destruct w].
    cbn [mbind result_bind]. eexists. split; [done|]. split.
    + unfold mask_assign, len. rewrite !length_fmap, !length_replicate.
      destruct (Z.gtb_spec (Z.of_nat w) (Z.of_nat (length expanded_cigar)));
        rewrite length_correlate, ?length_replicate, ?length_fmap; lia.
    + unfold mask_assign. rewrite <- list_fmap_compose. apply Forall_fmap.
      apply Forall_forall. intros x _. apply threshold_binary.
Qed.

(** X3: the detector raises [ValueError] when the window size is not
    positive or the expanded CIGAR is empty; otherwise it returns a mask of 0s
    and 1s whose length is the larger of the CIGAR's length and the window
    size. *)
Theorem pass_fail_outcome (expanded_cigar : list Z) :
  (BASE_SCORE_WINDOW <= 0 \/ expanded_cigar = [] ->
   get_pass_fail expanded_cigar = Raise ValueError) /\
  (1 <= BASE_SCORE_WINDOW -> expanded_cigar <> [] ->
   exists pass_fail,
     get_pass_fail expanded_cigar = Ok pass_fail /\
     length pass_fail
     = Nat.max (length expanded_cigar) (Z.to_nat BASE_SCORE_WINDOW) /\
     Forall (fun x => x = 0 \/ x = 1) pass_fail).
Proof.
  destruct (get_pass_fail_cases expanded_cigar) as [Hbad Hgood].
  split; [exact Hbad|exact Hgood].
Qed.

Lemma elem0_nonneg (a : list Z) (i : Z) : nonneg a -> 0 <= elem0 a i.
Proof.
  intros Ha. unfold elem0. destruct (i <? 0); [lia|].
  destruct (a !! Z.to_nat i) as [x|] eqn:Hx; [|simpl; lia].
  exact (Forall_lookup_1 _ _ _ _ Ha Hx).
Qed.

Lemma correlate_nonneg (a v : list Z) :
  nonneg a -> nonneg v -> nonneg (np_correlate_same a v).
Proof.
  intros Ha Hv. unfold np_correlate_same. apply Forall_fmap, Forall_forall.
  intros i _. apply sum_nonneg. apply Forall_fmap, Forall_forall. intros k _.
  simpl. pose proof (elem0_nonneg a (i + k - len v / 2) Ha).
  pose proof (elem0_nonneg v k Hv). nia.
Qed.

(** For operation codes the mask is the threshold applied to the counts of
    the windows, which do not depend on the threshold. *)
Lemma get_pass_fail_counts (ec : list Z) :
  op_codes ec ->
  get_pass_fail ec
  = np_ones BASE_SCORE_WINDOW ≫= fun ones : list Z =>
    np_convolve_same (spec_nonmatch <$> ec) ones ≫= fun counts : list Z =>
    Ok (spec_mask BASE_SCORE_THRESHOLD <$> counts).
Proof.
  intros Hec. unfold get_pass_fail. rewrite simplified_nonmatch by done.
  unfold np_ones. destruct (BASE_SCORE_WINDOW <? 0); [done|].
  cbn [mbind result_bind].
  destruct (np_convolve_same _ _) as [counts|] eqn:Hconv; [|done].
  cbn [mbind result_bind]. f_equal.
  assert (nonneg counts) as Hnn.
  { apply np_convolve_same_Ok in Hconv as (_ & _ & ->).
    assert (nonneg (spec_nonmatch <$> ec)) as Ha.
    { apply Forall_fmap, Forall_forall. intros x _. apply spec_nonmatch_range. }
    assert (nonneg (replicate (Z.to_nat BASE_SCORE_WINDOW) 1)) as Hv
      by (apply Forall_replicate; lia).
    destruct (_ >? _); apply correlate_nonneg; try done; by apply Forall_reverse. }
  unfold mask_assign. rewrite <- list_fmap_compose.
  apply list_fmap_ext. intros k x Hx. apply threshold_count.
  exact (Forall_lookup_1 _ _ _ _ Hnn Hx).
Qed.

(** ** Scores of one alignment: when they are returned, and what raises *)



(** ** An alignment of matches only, of any length *)

Lemma range_succ (n : nat) :
  range (Z.of_nat (S n)) = 0 :: ((fun i => i + 1) <$> range (Z.of_nat n)).
Proof.
  unfold range. rewrite !Nat2Z.id. simpl. f_equal.
  rewrite <- fmap_S_seq, <- !list_fmap_compose.
  apply list_fmap_ext. intros _ k _. simpl. lia.
Qed.

Lemma spec_scan_matches (n : nat) : forall s : Z,
  spec_scan s (replicate n (0, 0)) = (fun i => s + i + 1) <$> range (Z.of_nat n).
Proof.
  induction n as [|n IH]; intros s; [done|].
  rewrite range_succ. cbn [replicate spec_scan spec_rule fmap list_fmap].
  change (0 =? 1) with false. change (0 =? 0) with true. cbv iota.
  rewrite IH, <- list_fmap_compose. f_equal; [lia|].
  apply list_fmap_ext. intros _ k _. simpl. lia.
Qed.

Lemma zip_replicate_zero (n : nat) :
  zip (replicate n 0) (replicate n 0) = replicate n (0, 0).
Proof. induction n as [|n IH]; [done|]. simpl. by rewrite IH. Qed.

Lemma reverse_climb (n : nat) :
  reverse ((fun i => 0 + i + 1) <$> range (Z.of_nat n))
  = (fun i => Z.of_nat n - i) <$> range (Z.of_nat n).
Proof.
  induction n as [|n IH]; [done|].
  rewrite range_S at 1. rewrite fmap_app, reverse_app, IH, range_succ.
  cbn [fmap list_fmap reverse app]. rewrite reverse_singleton. cbn [app].
  rewrite <- list_fmap_compose. f_equal; [lia|].
  apply list_fmap_ext. intros _ k _. simpl. lia.
Qed.

Lemma spec_combined_fmap (f g : Z -> Z) (l : list Z) :
  spec_combined (f <$> l) (g <$> l) (replicate (length l) 0)
  = (fun i => Z.min (f i) (g i)) <$> l.
Proof.
  induction l as [|x l IH]; [done|].
  cbn [fmap list_fmap length replicate spec_combined].
  change (0 =? 2) with false. cbv iota. f_equal. exact IH.
Qed.

(** X5: for an alignment whose CIGAR expands to [n >= 1] matches and which
    spans [n] reference positions, under a window of at least one column and
    a threshold of at least 1, the score at offset [j] is the smaller of
    [j + 1] and [n - j]: the distance to the nearer end of the alignment. *)
Theorem all_match_scores_ramp (a : Alignment) (n : nat) :
  1 <= BASE_SCORE_WINDOW -> 1 <= BASE_SCORE_THRESHOLD -> (1 <= n)%nat ->
  get_expanded_cigar a = Ok (replicate n 0) ->
  ref_end a - ref_start a = Z.of_nat n ->
  get_alignment_scores a
  = Ok ((fun j => Z.min (j + 1) (Z.of_nat n - j)) <$> range (Z.of_nat n)).
Proof.
  intros Hw Ht Hn Hec Hspan. unfold get_alignment_scores.
  rewrite Hec. cbn [mbind result_bind].
  rewrite (get_pass_fail_all_match n Hn Hw Ht). cbn [mbind result_bind].
  set (k := Nat.max n (Z.to_nat BASE_SCORE_WINDOW)).
  assert (take (length (replicate n 0)) (replicate k 0) = replicate n 0) as Htake.
  { rewrite take_replicate, length_replicate. f_equal. lia. }
  rewrite forward_scan by (rewrite !length_replicate; lia).
  rewrite reverse_scan by (rewrite !length_replicate; lia).
  rewrite <- (zip_with_take_r _ (replicate n 0) (replicate k 0)), Htake.
  rewrite zip_replicate_zero, reverse_replicate, spec_scan_matches.
  cbn [mbind result_bind]. rewrite reverse_climb.
  rewrite combine_cases
    by (rewrite !length_fmap, ?length_range, ?length_replicate; lia).
  cbv zeta.
  pose proof (spec_combined_fmap (fun i => 0 + i + 1) (fun i => Z.of_nat n - i)
                (range (Z.of_nat n))) as Hcomb.
  rewrite length_range, Nat2Z.id in Hcomb. rewrite Hcomb.
  rewrite decide_True by (rewrite length_fmap, length_range; lia).
  reflexivity.
Qed.

(** ** How large a score can be *)

Lemma score_column_rise (ec pf scores scores1 : list Z) (s s1 : Z) (i : nat) :
  score_column ec pf (s, scores) (Z.of_nat i) = Ok (s1, scores1) ->
  0 <= s -> 0 <= s1 <= s + 1 /\ scores1 = <[i:=s1]> scores.
Proof.
  intros Hrun Hs. unfold score_column in Hrun. bind_ok Hrun.
  injection Hrun as <- <-.
  rewrite setitem_nat in E1. destruct (decide _); [|done]. injection E1 as <-.
  split; [|done].
  destruct (a =? 1); [injection E0 as <-; lia|]. bind_ok E0.
  destruct (a1 =? 0); injection E0 as <-; [lia|].
  destruct (Z.ltb_spec (s - 1) 0); lia.
Qed.

(** A scan over the columns [idxs] keeps every score under the bound [B] of
    its column, when the bound of the column visited at turn [t] is at least
    [c + t + 1], [c] bounding the running score at the start. *)
Lemma directional_bound (ec pf : list Z) (B : nat -> Z) (idxs : list nat) :
  forall (c s : Z) (scores : list Z) (st' : Z * list Z),
  for_each (score_column ec pf) (Z.of_nat <$> idxs) (s, scores) = Ok st' ->
  0 <= s <= c ->
  (forall i f, scores !! i = Some f -> 0 <= f <= B i) ->
  (forall t i, idxs !! t = Some i -> c + Z.of_nat t + 1 <= B i) ->
  forall i f, st'.2 !! i = Some f -> 0 <= f <= B i.
Proof.
  induction idxs as [|i0 idxs IH]; intros c s scores st' Hrun Hs Hscores HB.
  - injection Hrun as <-. done.
  - cbn [fmap list_fmap for_each] in Hrun. bind_ok Hrun. destruct a as [s1 scores1].
    apply score_column_rise in E as [Hs1 ->]; [|lia].
    apply (IH (c + 1) s1 (<[i0:=s1]> scores) st' Hrun); [lia| |].
    + intros i f Hi. destruct (decide (i = i0)) as [->|Hne].
      * apply list_lookup_insert_Some in Hi as [(_ & <- & _)|[? _]]; [|done].
        specialize (HB 0%nat i0 eq_refl). lia.
      * rewrite list_lookup_insert_ne in Hi by done. by apply Hscores.
    + intros t i Ht. specialize (HB (S t) i Ht). lia.
Qed.

Lemma zeros_lookup_bound (n : Z) (B : nat -> Z) :
  (forall i, 0 <= B i) ->
  forall i f, zeros n !! i = Some f -> 0 <= f <= B i.
Proof.
  intros HB i f Hi. unfold zeros in Hi.
  apply lookup_replicate in Hi as [-> _]. specialize (HB i). lia.
Qed.

Lemma forward_scores_bound (ec pf fwd : list Z) :
  get_cigar_scores_forward ec pf = Ok fwd ->
  forall i f, fwd !! i = Some f -> 0 <= f <= Z.of_nat i + 1.
Proof.
  unfold get_cigar_scores_forward. intros Hrun. bind_ok Hrun. injection Hrun as <-.
  unfold range in E.
  apply (directional_bound ec pf (fun i => Z.of_nat i + 1) _ 0 0 _ _ E); [lia| |].
  - apply zeros_lookup_bound. lia.
  - intros t i [-> _]%lookup_seq. lia.
Qed.

Lemma reverse_scores_bound (ec pf rev : list Z) :
  get_cigar_scores_reverse ec pf = Ok rev ->
  forall i r, rev !! i = Some r -> 0 <= r <= Z.max 0 (len ec - Z.of_nat i).
Proof.
  unfold get_cigar_scores_reverse. intros Hrun. bind_ok Hrun. injection Hrun as <-.
  unfold range_down, range in E. rewrite <- fmap_reverse in E.
  apply (directional_bound ec pf (fun i => Z.max 0 (len ec - Z.of_nat i)) _ 0 0 _ _ E);
    [lia| |].
  - apply zeros_lookup_bound. lia.
  - intros t i Ht.
    assert (t < length (seq 0 (Z.to_nat (len ec))))%nat as Hlt.
    { apply lookup_lt_Some in Ht. by rewrite length_reverse in Ht. }
    rewrite reverse_lookup in Ht by done.
    apply lookup_seq in Ht as [-> _]. rewrite length_seq in *.
    unfold len in *. lia.
Qed.

Lemma spec_combined_bound (fwd : list Z) : forall (rev ec : list Z) (k m : Z),
  (forall i f, fwd !! i = Some f -> 0 <= f <= k + Z.of_nat i + 1) ->
  (forall i r, rev !! i = Some r -> 0 <= r <= Z.max 0 (m - Z.of_nat i)) ->
  Forall (fun x => 0 <= 2 * x <= Z.max 0 (k + m + 1)) (spec_combined fwd rev ec).
Proof.
  induction fwd as [|f fwd IH]; intros [|r rev] [|e ec] k m Hf Hr; simpl;
    try constructor.
  assert (Forall (fun x => 0 <= 2 * x <= Z.max 0 (k + m + 1)) (spec_combined fwd rev ec))
    as Htail.
  { replace (k + m + 1) with ((k + 1) + (m - 1) + 1) by lia. apply IH.
    - intros i x Hi. specialize (Hf (S i) x Hi). lia.
    - intros i x Hi. specialize (Hr (S i) x Hi). lia. }
  destruct (e =? 2); [done|]. constructor; [|done].
  specialize (Hf 0%nat f eq_refl). specialize (Hr 0%nat r eq_refl). lia.
Qed.

(** X6: in the scores that [get_alignment_scores] returns from an expanded
    CIGAR of [n] columns, the forward score of column [i] is at most [i + 1],
    the reverse score at most [n - i], and so no combined score is more than
    half of [n + 1]; none is negative. *)
Theorem alignment_scores_bounded (a : Alignment) (cs : list Z) :
  get_alignment_scores a = Ok cs ->
  exists ec pf fwd rev,
    get_expanded_cigar a = Ok ec /\ get_pass_fail ec = Ok pf /\
    get_cigar_scores_forward ec pf = Ok fwd /\
    get_cigar_scores_reverse ec pf = Ok rev /\
    (forall i f, fwd !! i = Some f -> 0 <= f <= Z.of_nat i + 1) /\
    (forall i r, rev !! i = Some r -> 0 <= r <= len ec - Z.of_nat i) /\
    Forall (fun x => 0 <= x <= (len ec + 1) / 2) cs.
Proof.
  intros (ec & pf & fwd & rev & Hec & Hpf & Hf & Hr & -> & _ & _)%get_alignment_scores_Ok.
  exists ec, pf, fwd, rev. do 4 (split; [done|]).
  pose proof (forward_scores_bound _ _ _ Hf) as Hfb.
  pose proof (reverse_scores_bound _ _ _ Hr) as Hrb.
  destruct (reverse_scores_inv _ _ _ Hr) as [_ Hrlen].
  split; [exact Hfb|]. split.
  - intros i r Hi. specialize (Hrb i r Hi).
    apply lookup_lt_Some in Hi. unfold len in *. lia.
  - pose proof (spec_combined_bound fwd rev ec 0 (len ec) Hfb Hrb) as Hall.
    eapply List.Forall_impl; [|exact Hall]. intros x Hx. simpl in Hx.
    split; [lia|]. apply Z.div_le_lower_bound; [lia|]. unfold len in *. lia.
Qed.

(** ** Accumulation: what is written where *)

(** The loop over an alignment's scores when index [ref_start + off + j]
    denotes position [base + j] of the accumulator, for every score [j]. *)
Lemma add_scores_at (a : Alignment) (scores : list Z) :
  forall (off : Z) (base : nat) (pbs : list Z),
  (forall j : nat, (j < length scores)%nat ->
     py_index (length pbs) (ref_start a + off + Z.of_nat j) = Some (base + j)%nat) ->
  exists pbs',
    for_each (add_score a) (zip ((fun k => off + k) <$> range (len scores)) scores) pbs
    = Ok pbs' /\
    length pbs' = length pbs /\
    (forall (j : nat) s, scores !! j = Some s ->
       exists old, pbs !! (base + j)%nat = Some old /\
                   pbs' !! (base + j)%nat = Some (old + s)) /\
    (forall k : nat, ~ (base <= k < base + length scores)%nat -> pbs' !! k = pbs !! k).
Proof.
  induction scores as [|s scores IH]; intros off base pbs Hidx.
  - exists pbs. split; [done|]. split; [done|]. split; [|done]. intros j s Hj. done.
  - rewrite range_len_cons, fmap_cons, Z.add_0_r. cbn [zip zip_with for_each].
    pose proof (Hidx 0%nat ltac:(simpl; lia)) as H0.
    rewrite Z.add_0_r, Nat.add_0_r in H0.
    destruct (lookup_lt_is_Some_2 pbs base) as [old Hold];
      [by eapply py_index_Some|].
    assert (add_score a pbs (off, s) = Ok (<[base:=old + s]> pbs)) as ->.
    { unfold add_score, getitem, setitem. by rewrite H0, Hold. }
    cbn [mbind result_bind].
    destruct (IH (off + 1) (S base) (<[base:=old + s]> pbs))
      as (pbs' & Hrun & Hlen & Hin & Hout).
    { intros j Hj. rewrite length_insert.
      replace (ref_start a + (off + 1) + Z.of_nat j)
        with (ref_start a + off + Z.of_nat (S j)) by lia.
      rewrite Hidx by (simpl; lia). f_equal. lia. }
    exists pbs'. rewrite length_insert in Hlen.
    split; [|split; [done|split]].
    + rewrite <- Hrun, <- list_fmap_compose. do 2 f_equal.
      apply list_fmap_ext. intros _ k _. simpl. lia.
    + intros [|j] x Hj.
      * injection Hj as <-. rewrite Nat.add_0_r. exists old. split; [done|].
        rewrite Hout by lia. apply list_lookup_insert_eq. by eapply lookup_lt_Some.
      * destruct (Hin j x Hj) as (old' & Hold' & Hnew).
        rewrite list_lookup_insert_ne in Hold' by lia.
        exists old'. by rewrite <- !Nat.add_succ_comm.
    + intros k Hk. simpl in Hk. rewrite Hout by lia.
      apply list_lookup_insert_ne. lia.
Qed.

Lemma enumerate_offset_zero {A} (l : list A) :
  enumerate l = zip ((fun k => 0 + k) <$> range (len l)) l.
Proof.
  unfold enumerate. f_equal. rewrite <- (list_fmap_id (range (len l))) at 1.
  apply list_fmap_ext. intros _ k _. simpl. lia.
Qed.

(** X7: for an alignment that lies inside the accumulator
    ([0 <= ref_start] and [ref_start + len(scores) <= len]), accumulation adds
    the score at offset [j] to the accumulator's entry at [ref_start + j], for
    every [j], and changes nothing else. *)
Theorem accumulation_adds_at_offset (a : Alignment) (scores pbs : list Z) :
  0 <= ref_start a -> ref_start a + len scores <= len pbs ->
  exists pbs',
    for_each (add_score a) (enumerate scores) pbs = Ok pbs' /\
    length pbs' = length pbs /\
    (forall (j : nat) s, scores !! j = Some s ->
       exists old,
         pbs !! (Z.to_nat (ref_start a) + j)%nat = Some old /\
         pbs' !! (Z.to_nat (ref_start a) + j)%nat = Some (old + s)) /\
    (forall k : nat,
       ~ (Z.to_nat (ref_start a) <= k < Z.to_nat (ref_start a) + length scores)%nat ->
       pbs' !! k = pbs !! k).
Proof.
  intros H0 Hend. rewrite enumerate_offset_zero.
  apply add_scores_at. intros j Hj. rewrite Z.add_0_r.
  rewrite py_index_in_range by (unfold len in *; lia). f_equal. lia.
Qed.

Lemma py_index_negative (n : nat) (i : Z) :
  - Z.of_nat n <= i < 0 -> py_index n i = Some (Z.to_nat (Z.of_nat n + i)).
Proof.
  intros Hi. unfold py_index.
  replace (0 <=? i) with false by (symmetry; apply Z.leb_gt; lia).
  replace (- Z.of_nat n <=? i) with true by (symmetry; apply Z.leb_le; lia).
  replace (i <? 0) with true by (symmetry; apply Z.ltb_lt; lia).
  simpl. f_equal. lia.
Qed.

(** X8: an alignment with a negative [ref_start] is not refused: when
    [-len <= ref_start] and [ref_start + len(scores) <= 0], every index is
    negative, Python counts it from the end, and the scores are added to the
    accumulator's entries from [len + ref_start] on, without an error. *)
Theorem negative_ref_start_wraps (a : Alignment) (scores pbs : list Z) :
  - len pbs <= ref_start a -> ref_start a + len scores <= 0 ->
  exists pbs',
    for_each (add_score a) (enumerate scores) pbs = Ok pbs' /\
    length pbs' = length pbs /\
    forall (j : nat) s, scores !! j = Some s ->
      exists old,
        pbs !! (Z.to_nat (len pbs + ref_start a) + j)%nat = Some old /\
        pbs' !! (Z.to_nat (len pbs + ref_start a) + j)%nat = Some (old + s).
Proof.
  intros Hlo Hhi. rewrite enumerate_offset_zero.
  destruct (add_scores_at a scores 0 (Z.to_nat (len pbs + ref_start a)) pbs)
    as (pbs' & Hrun & Hlen & Hin & _).
  { intros j Hj. rewrite Z.add_0_r.
    rewrite py_index_negative by (unfold len in *; lia). f_equal.
    unfold len in *. lia. }
  exists pbs'. done.
Qed.

(** The loop raises as soon as a score would go to a position behind the end
    of the accumulator. *)
Lemma add_scores_overrun (a : Alignment) (scores : list Z) :
  forall (off : Z) (pbs : list Z),
  scores <> [] -> 0 <= ref_start a + off ->
  len pbs < ref_start a + off + len scores ->
  for_each (add_score a) (zip ((fun k => off + k) <$> range (len scores)) scores) pbs
  = Raise IndexError.
Proof.
  induction scores as [|s scores IH]; intros off pbs Hne Hlo Hhi; [done|].
  rewrite range_len_cons, fmap_cons, Z.add_0_r. cbn [zip zip_with for_each].
  rewrite len_cons in Hhi.
  destruct (Z_lt_ge_dec (ref_start a + off) (len pbs)) as [Hin|Hout].
  - destruct (add_score_in_range a pbs off s) as (old & _ & ->); [lia|].
    cbn [mbind result_bind].
    rewrite <- list_fmap_compose.
    erewrite list_fmap_ext; [apply (IH (off + 1))|].
    + destruct scores; [|done]. unfold len in *. simpl in *. lia.
    + lia.
    + unfold len in *. rewrite length_insert. lia.
    + intros _ k _. simpl. lia.
  - unfold add_score, getitem, py_index.
    replace (ref_start a + off <? Z.of_nat (length pbs)) with false
      by (symmetry; apply Z.ltb_ge; unfold len in *; lia).
    replace (ref_start a + off <? 0) with false by (symmetry; apply Z.ltb_ge; lia).
    by rewrite !andb_false_r.
Qed.

(** X9: accumulating scores that reach behind the end of the accumulator
    ([0 <= ref_start] and [len < ref_start + len(scores)]) raises
    [IndexError]. *)
Theorem accumulation_overrun_raises (a : Alignment) (scores pbs : list Z) :
  scores <> [] -> 0 <= ref_start a -> len pbs < ref_start a + len scores ->
  for_each (add_score a) (enumerate scores) pbs = Raise IndexError.
Proof.
  intros Hne H0 Hend. rewrite enumerate_offset_zero.
  apply add_scores_overrun; [done|lia|lia].
Qed.

(** ** Accumulation does not depend on the order of the alignments *)

Lemma zip_add_zeros (l : list Z) : zip_with Z.add l (replicate (length l) 0) = l.
Proof. induction l as [|x l IH]; [done|]. simpl. rewrite IH. f_equal. lia. Qed.

Lemma zip_add_assoc (l : list Z) : forall d1 d2 : list Z,
  zip_with Z.add (zip_with Z.add l d1) d2 = zip_with Z.add l (zip_with Z.add d1 d2).
Proof.
  induction l as [|x l IH]; intros [|y d1] [|z d2]; try done.
  simpl. rewrite IH. f_equal. lia.
Qed.

Lemma zip_add_swap (l : list Z) : forall d1 d2 : list Z,
  zip_with Z.add (zip_with Z.add l d1) d2 = zip_with Z.add (zip_with Z.add l d2) d1.
Proof.
  induction l as [|x l IH]; intros [|y d1] [|z d2]; try done.
  simpl. rewrite IH. f_equal. lia.
Qed.

Lemma insert_as_zip_add (pbs : list Z) : forall (k : nat) (old s : Z),
  pbs !! k = Some old ->
  <[k:=old + s]> pbs = zip_with Z.add pbs (<[k:=s]> (replicate (length pbs) 0)).
Proof.
  induction pbs as [|x pbs IH]; intros [|k] old s Hk; try done.
  - injection Hk as ->. simpl. by rewrite zip_add_zeros.
  - simpl in *. rewrite (IH k old s Hk). f_equal. lia.
Qed.

Lemma additive_add_score (a : Alignment) (x : Z * Z) :
  additive (fun pbs => add_score a pbs x).
Proof.
  destruct x as [j s]. intros n.
  destruct (py_index n (ref_start a + j)) as [k|] eqn:Hk.
  - right. exists (<[k:=s]> (replicate n 0)).
    split; [by rewrite length_insert, length_replicate|].
    intros pbs <-. unfold add_score, getitem, setitem. rewrite Hk.
    destruct (lookup_lt_is_Some_2 pbs k) as [old Hold]; [by eapply py_index_Some|].
    rewrite Hold. cbn [mbind result_bind]. f_equal. by apply insert_as_zip_add.
  - left. exists IndexError. intros pbs <-.
    unfold add_score, getitem. by rewrite Hk.
Qed.

Lemma additive_for_each {X} (body : list Z -> X -> result (list Z)) (xs : list X) :
  (forall x, additive (fun pbs => body pbs x)) ->
  additive (for_each body xs).
Proof.
  intros Hbody. induction xs as [|x xs IH]; intros n.
  - right. exists (replicate n 0). split; [apply length_replicate|].
    intros pbs <-. simpl. by rewrite zip_add_zeros.
  - destruct (Hbody x n) as [[e He]|(d1 & Hd1 & Hx)].
    + left. exists e. intros pbs Hn. simpl. by rewrite He.
    + destruct (IH n) as [[e He]|(d2 & Hd2 & Hxs)].
      * left. exists e. intros pbs Hn. simpl. rewrite Hx by done.
        cbn [mbind result_bind]. apply He. rewrite length_zip_with. lia.
      * right. exists (zip_with Z.add d1 d2).
        split; [rewrite length_zip_with; lia|].
        intros pbs Hn. simpl. rewrite Hx by done. cbn [mbind result_bind].
        rewrite Hxs by (rewrite length_zip_with; lia). by rewrite zip_add_assoc.
Qed.

Lemma additive_add_alignment (x : Z * Alignment) :
  additive (fun pbs => add_alignment pbs x).
Proof.
  destruct x as [i a]. unfold add_alignment.
  destruct (get_alignment_scores a) as [cs|e]; cbn [mbind result_bind].
  - apply additive_for_each. intros x. apply additive_add_score.
  - intros n. left. by exists e.
Qed.

(** A loop of additive steps that returns, returns the same on every
    permutation of its list. *)
Lemma for_each_additive_perm {X} (body : list Z -> X -> result (list Z))
    (xs ys : list X) :
  (forall x, additive (fun pbs => body pbs x)) ->
  xs ≡ₚ ys ->
  forall pbs acc, for_each body xs pbs = Ok acc -> for_each body ys pbs = Ok acc.
Proof.
  intros Hbody. induction 1 as [|x xs ys _ IH|x y xs|xs ys zs _ IH1 _ IH2];
    intros pbs acc Hrun.
  - done.
  - simpl in *. destruct (body pbs x) as [p1|]; [|done]. by apply IH.
  - simpl in *.
    destruct (body pbs y) as [p1|] eqn:Hy; [|done]. cbn [mbind result_bind] in Hrun.
    destruct (body p1 x) as [p2|] eqn:Hx; [|done]. cbn [mbind result_bind] in Hrun.
    destruct (Hbody y (length pbs)) as [[e He]|(dy & Hdy & Hy')];
      [rewrite He in Hy by done; done|].
    rewrite Hy' in Hy by done. injection Hy as <-.
    assert (length (zip_with Z.add pbs dy) = length pbs) as Hlen
      by (rewrite length_zip_with; lia).
    destruct (Hbody x (length pbs)) as [[e He]|(dx & Hdx & Hx')];
      [rewrite He in Hx by done; done|].
    rewrite Hx' in Hx by done. injection Hx as <-.
    rewrite Hx' by done. cbn [mbind result_bind].
    rewrite Hy' by (rewrite length_zip_with; lia). cbn [mbind result_bind].
    by rewrite zip_add_swap.
  - by apply IH2, IH1.
Qed.

Lemma add_alignment_index (xs : list (Z * Alignment)) : forall pbs : list Z,
  for_each add_alignment xs pbs
  = for_each (fun pbs a => add_alignment pbs (0, a)) xs.*2 pbs.
Proof.
  induction xs as [|[i a] xs IH]; intros pbs; [done|].
  simpl. destruct (get_alignment_scores a); [|done]. cbn [mbind result_bind].
  destruct (for_each (add_score a) _ pbs); [|done]. apply IH.
Qed.

(** X10: the accumulator that a list of alignments gives is the one that
    every permutation of the list gives: when accumulation returns, it
    returns the same in any order of the alignments. *)
Theorem accumulation_order_independent (ref_seq : string)
    (alignments alignments' : list Alignment) (acc : list Z) :
  alignments ≡ₚ alignments' ->
  accumulate ref_seq alignments = Ok acc ->
  accumulate ref_seq alignments' = Ok acc.
Proof.
  unfold accumulate. intros Hperm.
  rewrite !add_alignment_index, !enumerate_snd.
  apply for_each_additive_perm; [|done].
  intros a. apply (additive_add_alignment (0, a)).
Qed.

(** ** Positions that no alignment covers *)

Lemma py_index_nonneg (n : nat) (i : Z) (k : nat) :
  0 <= i -> py_index n i = Some k -> i = Z.of_nat k /\ (k < n)%nat.
Proof.
  intros Hi. unfold py_index.
  replace (0 <=? i) with true by (symmetry; apply Z.leb_le; lia).
  destruct (Z.ltb_spec i (Z.of_nat n)); simpl.
  - intros [= <-]. lia.
  - replace (i <? 0) with false by (symmetry; apply Z.ltb_ge; lia).
    by rewrite andb_false_r.
Qed.

Lemma elem_of_enumerate {A} (l : list A) (j : Z) (x : A) :
  (j, x) ∈ enumerate l -> exists i : nat, j = Z.of_nat i /\ l !! i = Some x.
Proof.
  intros [t Ht]%list_elem_of_lookup. unfold enumerate in Ht.
  rewrite lookup_zip_with in Ht.
  destruct (range (len l) !! t) as [j'|] eqn:Hj; [|done]. simpl in Ht.
  destruct (l !! t) as [x'|] eqn:Hx; [|done]. simpl in Ht. injection Ht as -> ->.
  apply lookup_range in Hj as [-> _]. by exists t.
Qed.

Lemma add_scores_untouched (a : Alignment) (js : list (Z * Z)) :
  forall (pbs pbs' : list Z) (k : nat),
  for_each (add_score a) js pbs = Ok pbs' ->
  (forall j s, (j, s) ∈ js -> py_index (length pbs) (ref_start a + j) <> Some k) ->
  pbs' !! k = pbs !! k.
Proof.
  induction js as [|[j s] js IH]; intros pbs pbs' k Hrun Hk; simpl in Hrun.
  - by injection Hrun as <-.
  - bind_ok Hrun. unfold add_score in E. bind_ok E.
    apply setitem_Ok in E as (k0 & Hk0 & _ & ->).
    rewrite (IH _ _ k Hrun).
    + apply list_lookup_insert_ne. intros ->.
      apply (Hk j s); [left|]. by rewrite <- Hk0.
    + intros j' s' Hin. rewrite length_insert. apply (Hk j' s'). by right.
Qed.

Lemma add_alignment_untouched (a : Alignment) (i : Z) (pbs pbs' : list Z) (p : nat) :
  add_alignment pbs (i, a) = Ok pbs' ->
  0 <= ref_start a -> ~ (ref_start a <= Z.of_nat p < ref_end a) ->
  pbs' !! p = pbs !! p.
Proof.
  unfold add_alignment. intros Hrun H0 Hp. bind_ok Hrun.
  destruct (get_alignment_scores_Ok _ _ E)
    as (_ & _ & _ & _ & _ & _ & _ & _ & _ & Hlen & _).
  apply (add_scores_untouched a _ _ _ p Hrun).
  intros j s (t & -> & Ht)%elem_of_enumerate Hidx.
  apply lookup_lt_Some in Ht.
  apply py_index_nonneg in Hidx as [Hidx _]; lia.
Qed.

Lemma accumulate_loop_untouched (xs : list (Z * Alignment)) (p : nat) :
  forall pbs acc : list Z,
  for_each add_alignment xs pbs = Ok acc ->
  Forall (fun x : Z * Alignment =>
            0 <= ref_start x.2 /\ ~ (ref_start x.2 <= Z.of_nat p < ref_end x.2)) xs ->
  acc !! p = pbs !! p.
Proof.
  induction xs as [|[i a] xs IH]; intros pbs acc Hrun Hxs; simpl in Hrun.
  - by injection Hrun as <-.
  - apply Forall_cons_1 in Hxs as [[H0 Hp] Hxs]. simpl in H0, Hp.
    bind_ok Hrun. rewrite (IH _ _ Hrun Hxs).
    exact (add_alignment_untouched a i pbs _ p E H0 Hp).
Qed.

(** X11: in the accumulator built from alignments whose [ref_start] is not
    negative, a position of the reference that lies in no alignment's
    [ref_start, ref_end) holds 0; so it does in the profile of a linear
    sequence. *)
Theorem uncovered_positions_score_zero (ref_seq : string)
    (alignments : list Alignment) (acc : list Z) (p : nat) :
  accumulate ref_seq alignments = Ok acc ->
  Forall (fun a => 0 <= ref_start a) alignments ->
  Z.of_nat p < slen ref_seq ->
  (forall a, a ∈ alignments -> ~ (ref_start a <= Z.of_nat p < ref_end a)) ->
  acc !! p = Some 0 /\
  forall reads threads,
    alignments = align_reads_to_seq reads ref_seq threads ->
    exists prof,
      get_one_seq_per_base_scores ref_seq reads false threads = Ok prof /\
      prof !! p = Some 0.
Proof.
  intros Hacc H0 Hp Hun.
  assert (acc !! p = Some 0) as Hzero.
  { unfold accumulate in Hacc.
    rewrite (accumulate_loop_untouched _ p _ _ Hacc).
    - unfold zeros. apply lookup_replicate_2. unfold slen in *. lia.
    - assert (Forall (fun a => 0 <= ref_start a /\
                               ~ (ref_start a <= Z.of_nat p < ref_end a))
                (enumerate alignments).*2) as Hsnd.
      { rewrite enumerate_snd. apply Forall_forall. intros a Ha.
        split; [|by apply Hun].
        rewrite Forall_forall in H0. by apply H0. }
      rewrite Forall_fmap in Hsnd. exact Hsnd. }
  split; [exact Hzero|].
  intros reads threads ->. exists acc. by rewrite get_one_seq_linear.
Qed.

(** ** What the fold of a circular sequence loses, and when it loses
    nothing *)

Lemma sum_zip_max_min (l : list Z) : forall k : list Z,
  length k = length l ->
  sum (zip_with Z.max l k) + sum (zip_with Z.min l k) = sum l + sum k.
Proof.
  induction l as [|x l IH]; intros [|y k] Hlen; try done.
  cbn [zip_with]. rewrite !sum_cons. injection Hlen as Hlen.
  specialize (IH k Hlen). lia.
Qed.

(** X12: for a circular sequence of length [L] the profile's sum is the sum
    of the combined scores of the alignments that are kept, less what the
    fold drops: at every position the smaller of the accumulator's entries at
    [i] and [i + L]. *)
Theorem circular_fold_drops_minima (seq : string) (reads : Reads) (threads : Z)
    (prof : list Z) :
  get_one_seq_per_base_scores seq reads true threads = Ok prof ->
  exists acc css,
    accumulate (seq ++ seq) (select_alignments seq reads true threads).2 = Ok acc /\
    Forall2 (fun a cs => get_alignment_scores a = Ok cs)
      (select_alignments seq reads true threads).2 css /\
    sum prof
    = sum (sum <$> css)
      - sum (zip_with Z.min (take (String.length seq) acc) (drop (String.length seq) acc)).
Proof.
  intros Hrun. rewrite get_one_seq_circular in Hrun. bind_ok Hrun.
  injection Hrun as <-.
  destruct (accumulate_Ok _ _ _ E) as (Hlen & _ & css & Hcss & Hsum).
  exists a, css. split; [done|]. split; [done|].
  rewrite slen_append in Hlen. unfold slen, len in Hlen.
  rewrite <- Hsum. rewrite <- (take_drop (String.length seq) a) at 3.
  rewrite sum_app.
  pose proof (sum_zip_max_min (take (String.length seq) a) (drop (String.length seq) a))
    as Hmm.
  rewrite length_take, length_drop in Hmm. lia.
Qed.

Lemma add_score_extend (a : Alignment) (pbs pbs' ext : list Z) (j s : Z) :
  add_score a pbs (j, s) = Ok pbs' -> 0 <= ref_start a + j ->
  add_score a (pbs ++ ext) (j, s) = Ok (pbs' ++ ext).
Proof.
  unfold add_score. intros Hrun Hj. bind_ok Hrun.
  apply getitem_Ok in E as (k & Hk & Hold).
  apply setitem_Ok in Hrun as (k' & Hk' & _ & ->).
  assert (k' = k) as -> by congruence.
  apply py_index_nonneg in Hk as [Hi Hlt]; [|done].
  unfold getitem, setitem.
  rewrite py_index_in_range by (rewrite length_app; lia).
  rewrite Hi, Nat2Z.id, lookup_app_l, Hold by done.
  cbn [mbind result_bind]. by rewrite insert_app_l.
Qed.

Lemma add_scores_extend (a : Alignment) (ext : list Z) (js : list (Z * Z)) :
  forall pbs pbs' : list Z,
  for_each (add_score a) js pbs = Ok pbs' ->
  (forall j s, (j, s) ∈ js -> 0 <= ref_start a + j) ->
  for_each (add_score a) js (pbs ++ ext) = Ok (pbs' ++ ext).
Proof.
  induction js as [|[j s] js IH]; intros pbs pbs' Hrun Hjs; cbn [for_each] in *.
  - by injection Hrun as <-.
  - bind_ok Hrun.
    rewrite (add_score_extend a pbs a0 ext j s E) by (apply (Hjs j s); left).
    cbn [mbind result_bind]. apply IH; [done|].
    intros j' s' Hin. apply (Hjs j' s'). by right.
Qed.

Lemma accumulate_loop_extend (ext : list Z) (xs : list (Z * Alignment)) :
  forall pbs acc : list Z,
  for_each add_alignment xs pbs = Ok acc ->
  Forall (fun x : Z * Alignment => 0 <= ref_start x.2) xs ->
  for_each add_alignment xs (pbs ++ ext) = Ok (acc ++ ext).
Proof.
  induction xs as [|[i a] xs IH]; intros pbs acc Hrun Hxs; cbn [for_each] in Hrun |- *.
  - by injection Hrun as <-.
  - apply Forall_cons_1 in Hxs as [H0 Hxs]. simpl in H0.
    bind_ok Hrun. unfold add_alignment in E |- *. bind_ok E.
    cbn [mbind result_bind].
    rewrite (add_scores_extend a ext _ pbs a0 E).
    + cbn [mbind result_bind]. by apply IH.
    + intros j s (t & -> & _)%elem_of_enumerate. lia.
Qed.

Lemma zip_max_zeros (l : list Z) :
  nonneg l -> zip_with Z.max l (replicate (length l) 0) = l.
Proof.
  induction 1 as [|x l Hx _ IH]; [done|]. simpl. rewrite IH. f_equal. lia.
Qed.

(** X13: when the alignments that are kept for a circular sequence have no
    negative [ref_start] and fit in the first copy of the sequence, so that
    accumulating them over the sequence itself returns, the profile of the
    circular sequence is that accumulator: doubling and folding change
    nothing. *)
Theorem circular_profile_within_first_copy (seq : string) (reads : Reads)
    (threads : Z) (prof : list Z) :
  accumulate seq (select_alignments seq reads true threads).2 = Ok prof ->
  Forall (fun a => 0 <= ref_start a) (select_alignments seq reads true threads).2 ->
  get_one_seq_per_base_scores seq reads true threads = Ok prof.
Proof.
  intros Hacc H0. rewrite get_one_seq_circular.
  destruct (accumulate_Ok _ _ _ Hacc) as (Hlen & Hnn & _).
  unfold accumulate in Hacc |- *.
  assert (zeros (slen (seq ++ seq)) = zeros (slen seq) ++ zeros (slen seq)) as ->.
  { rewrite slen_append. apply zeros_add; unfold slen; lia. }
  rewrite (accumulate_loop_extend (zeros (slen seq)) _ _ _ Hacc).
  - cbn [mbind result_bind]. f_equal.
    assert (length prof = String.length seq) as Hlen'
      by (unfold len, slen in Hlen; lia).
    rewrite take_app_length', drop_app_length' by done.
    unfold zeros, slen. rewrite Nat2Z.id, <- Hlen'. by apply zip_max_zeros.
  - assert (Forall (fun a => 0 <= ref_start a)
              (enumerate (select_alignments seq reads true threads).2).*2) as Hsnd
      by (by rewrite enumerate_snd).
    rewrite Forall_fmap in Hsnd. exact Hsnd.
Qed.

(** ** Scores of all sequences *)

Lemma score_sequence_Ok {F : Type} (plot : string -> list Z -> F -> result unit)
    (reads : Reads) (circular : bool) (threads : Z) (plot_qual : bool) (fasta : F)
    (d d' : gmap string (list Z)) (name seq : string) :
  score_sequence plot reads circular threads plot_qual fasta d (name, seq) = Ok d' ->
  exists prof,
    get_one_seq_per_base_scores seq reads circular threads = Ok prof /\
    d' = <[name:=prof]> d.
Proof.
  unfold score_sequence. intros Hrun. bind_ok Hrun. injection Hrun as <-. eauto.
Qed.

(** The dictionary after the loop: the profiles of the sequences of the
    list, and what the dictionary held before under other names. *)
Lemma score_sequences_Ok {F : Type} (plot : string -> list Z -> F -> result unit)
    (reads : Reads) (circular : bool) (threads : Z) (plot_qual : bool) (fasta : F)
    (seqs : list (string * string)) :
  forall d d' : gmap string (list Z),
  for_each (score_sequence plot reads circular threads plot_qual fasta) seqs d = Ok d' ->
  NoDup seqs.*1 ->
  (forall name seq, (name, seq) ∈ seqs ->
     exists prof, get_one_seq_per_base_scores seq reads circular threads = Ok prof /\
                  d' !! name = Some prof) /\
  (forall name, name ∉ seqs.*1 -> d' !! name = d !! name).
Proof.
  induction seqs as [|[n0 s0] seqs IH]; intros d d' Hrun Hnd.
  - injection Hrun as <-. split; [|done]. intros name seq Hin. by apply elem_of_nil in Hin.
  - cbn [for_each] in Hrun. bind_ok Hrun.
    apply score_sequence_Ok in E as (p0 & Hp0 & ->).
    cbn [fmap list_fmap fst] in Hnd.
    pose proof (NoDup_cons_1_1 _ _ Hnd) as Hn0.
    pose proof (NoDup_cons_1_2 _ _ Hnd) as Hnd'.
    destruct (IH _ _ Hrun Hnd') as [Hin Hout]. split.
    + intros name seq [[= -> ->]|Hmem]%elem_of_cons.
      * exists p0. split; [done|]. rewrite Hout by done. apply lookup_insert_eq.
      * by apply Hin.
    + intros name Hname. cbn [fmap list_fmap fst] in Hname.
      apply not_elem_of_cons in Hname as [Hne Hname].
      rewrite Hout by done. by apply lookup_insert_ne.
Qed.

Lemma profile_shape (seq : string) (reads : Reads) (circular : bool) (threads : Z)
    (prof : list Z) :
  get_one_seq_per_base_scores seq reads circular threads = Ok prof ->
  len prof = slen seq /\ nonneg prof.
Proof.
  intros Hrun. destruct circular.
  - rewrite get_one_seq_circular in Hrun. bind_ok Hrun. injection Hrun as <-.
    apply accumulate_Ok in E as (Hlen & Hnn & _).
    rewrite slen_append in Hlen. unfold slen, len in *. split.
    + rewrite length_zip_with, length_take, length_drop. lia.
    + apply zip_with_max_nonneg. by apply Forall_take.
  - rewrite get_one_seq_linear in Hrun.
    by apply accumulate_Ok in Hrun as (Hlen & Hnn & _).
Qed.

(** X14: for a dictionary of sequences (its items, with names that differ),
    the dictionary that [get_per_base_scores] returns holds under every
    sequence's name the profile that [get_one_seq_per_base_scores] returns
    for that sequence, of the sequence's length and without a negative entry,
    and holds nothing under any other name. *)
Theorem per_base_scores_of_every_sequence {F : Type}
    (plot : string -> list Z -> F -> result unit)
    (seqs : list (string * string)) (reads : Reads) (circular : bool) (threads : Z)
    (plot_qual : bool) (fasta : F) (d : gmap string (list Z)) :
  get_per_base_scores plot seqs reads circular threads plot_qual fasta = Ok d ->
  NoDup seqs.*1 ->
  (forall name seq, (name, seq) ∈ seqs ->
     exists prof,
       d !! name = Some prof /\
       get_one_seq_per_base_scores seq reads circular threads = Ok prof /\
       len prof = slen seq /\ nonneg prof) /\
  (forall name, name ∉ seqs.*1 -> d !! name = None).
Proof.
  unfold get_per_base_scores. intros Hrun Hnd.
  destruct (score_sequences_Ok _ _ _ _ _ _ _ _ _ Hrun Hnd) as [Hin Hout]. split.
  - intros name seq Hmem. destruct (Hin name seq Hmem) as (prof & Hprof & Hd).
    exists prof. split; [done|]. split; [done|].
    destruct (profile_shape _ _ _ _ _ Hprof) as [Hlen Hnn]. done.
  - intros name Hname. rewrite Hout by done. apply lookup_empty.
Qed.

(** X15: a sequence whose scoring raises aborts [get_per_base_scores] with
    that exception, whatever sequences follow it; and so does, when plots are
    asked for, a plot that raises: nothing is returned for the sequences
    before it. *)
Theorem per_base_scores_failure_aborts {F : Type}
    (plot : string -> list Z -> F -> result unit)
    (pre post : list (string * string)) (name seq : string)
    (reads : Reads) (circular : bool) (threads : Z)
    (plot_qual : bool) (fasta : F) (d : gmap string (list Z)) (e : exn) :
  get_per_base_scores plot pre reads circular threads plot_qual fasta = Ok d ->
  (get_one_seq_per_base_scores seq reads circular threads = Raise e \/
   exists prof,
     get_one_seq_per_base_scores seq reads circular threads = Ok prof /\
     plot_qual = true /\ plot name prof fasta = Raise e) ->
  get_per_base_scores plot (pre ++ (name, seq) :: post) reads circular threads
    plot_qual fasta
  = Raise e.
Proof.
  unfold get_per_base_scores. intros Hpre Hfail.
  rewrite for_each_app, Hpre. cbn [mbind result_bind for_each].
  assert (score_sequence plot reads circular threads plot_qual fasta d (name, seq)
          = Raise e) as ->; [|done].
  unfold score_sequence.
  destruct Hfail as [->|(prof & -> & -> & Hplot)]; [done|].
  cbn [mbind result_bind]. rewrite lookup_total_insert_eq, Hplot. done.
Qed.

End Scores.

(** ** Concrete cases *)

Lemma directional_scores_follow_rule_witness :
  length [0; 0; 1; 0; 2; 0; 0] = length [0; 0; 0; 1; 0; 0; 0] /\
  get_cigar_scores_forward [0; 0; 1; 0; 2; 0; 0] [0; 0; 0; 1; 0; 0; 0]
  = Ok [1; 2; 1; 0; 0; 1; 2] /\
  get_cigar_scores_reverse [0; 0; 1; 0; 2; 0; 0] [0; 0; 0; 1; 0; 0; 0]
  = Ok [2; 1; 0; 0; 1; 2; 1].
Proof.
  split; [reflexivity|].
  apply (directional_scores_follow_rule
           [0; 0; 1; 0; 2; 0; 0] [0; 0; 0; 1; 0; 0; 0]).
  reflexivity.
Defined.

Lemma combiner_takes_min_and_checks_length_witness :
  ref_start (mkAlignment 2 5 "1=1I2=") <= ref_end (mkAlignment 2 5 "1=1I2=") /\
  combine_forward_and_reverse_scores (mkAlignment 2 5 "1=1I2=")
    [1; 2; 3; 4] [4; 3; 2; 1] [0; 2; 0; 0]
  = Ok [1; 2; 1].
Proof.
  assert (ref_start (mkAlignment 2 5 "1=1I2=") <= ref_end (mkAlignment 2 5 "1=1I2="))
    as Hspan by (simpl; lia).
  split; [exact Hspan|].
  apply (combiner_takes_min_and_checks_length (mkAlignment 2 5 "1=1I2=")
           [1; 2; 3; 4] [4; 3; 2; 1] [0; 2; 0; 0] eq_refl eq_refl Hspan).
  reflexivity.
Defined.

Lemma circular_profile_folds_by_max_witness :
  accumulate 3 2 ("ACG" ++ "ACG")
    (select_alignments unit example_aligner "ACG" tt true 1).2
  = Ok [1; 3; 4; 2; 1; 0] /\
  exists prof,
    get_one_seq_per_base_scores 3 2 unit example_aligner "ACG" tt true 1 = Ok prof /\
    length prof = 3%nat /\
    forall i, (i < 3)%nat ->
      exists x y,
        [1; 3; 4; 2; 1; 0] !! i = Some x /\ [1; 3; 4; 2; 1; 0] !! (i + 3)%nat = Some y /\
        prof !! i = Some (Z.max x y).
Proof.
  assert (accumulate 3 2 ("ACG" ++ "ACG")
            (select_alignments unit example_aligner "ACG" tt true 1).2
          = Ok [1; 3; 4; 2; 1; 0]) as Hacc by (vm_compute; reflexivity).
  split; [exact Hacc|].
  apply (circular_profile_folds_by_max 3 2 unit example_aligner "ACG" tt 1
           [1; 3; 4; 2; 1; 0] Hacc).
Defined.

(** C4, as stated, fails where the alignment has fewer columns than the
    window: for the two columns [=X] under a window of 3 and a threshold of 1
    the detector returns three values, not two, and the first column passes
    although the window around it holds a non-match; on no column at all it
    raises. *)
Lemma window_mask_short_alignment :
  op_codes [0; 1] /\
  get_pass_fail 3 1 [0; 1] = Ok [0; 1; 1] /\
  length [0; 1; 1] <> length [0; 1] /\
  spec_pass_fail 3 1 [0; 1] = [1; 1] /\
  get_pass_fail 3 1 [] = Raise ValueError.
Proof.
  split; [repeat constructor; lia|].
  split; [reflexivity|]. split; [discriminate|]. split; reflexivity.
Qed.

Lemma window_mask_of_counts_witness :
  op_codes [0; 0; 1; 1; 0; 0] /\ 1 <= 3 /\ 3 <= len [0; 0; 1; 1; 0; 0] /\
  exists pass_fail,
    get_pass_fail 3 2 [0; 0; 1; 1; 0; 0] = Ok pass_fail /\
    length pass_fail = 6%nat /\
    forall i : nat, (i < 6)%nat ->
      pass_fail !! i
      = Some (if spec_window_count 3 [0; 0; 1; 1; 0; 0] (Z.of_nat i) <? 2
              then 0 else 1).
Proof.
  assert (op_codes [0; 0; 1; 1; 0; 0]) as Hec by (repeat constructor; lia).
  assert (1 <= 3) as Hw by lia.
  assert (3 <= len [0; 0; 1; 1; 0; 0]) as Hn by (vm_compute; discriminate).
  split; [exact Hec|]. split; [exact Hw|]. split; [exact Hn|].
  apply (window_mask_of_counts 3 2 [0; 0; 1; 1; 0; 0] Hec Hw Hn).
Defined.



Lemma profile_length_and_sign_witness :
  get_one_seq_per_base_scores 3 2 unit example_aligner "ACG" tt true 1
  = Ok [2; 3; 4] /\
  len [2; 3; 4] = slen "ACG" /\ nonneg [2; 3; 4].
Proof.
  assert (get_one_seq_per_base_scores 3 2 unit example_aligner "ACG" tt true 1
          = Ok [2; 3; 4]) as Hrun by (vm_compute; reflexivity).
  split; [exact Hrun|].
  destruct (profile_length_and_sign 3 2 unit example_aligner "ACG" tt true 1
              [2; 3; 4] Hrun) as (Hlen & Hnn & _).
  split; [exact Hlen|exact Hnn].
Defined.

Lemma second_half_alignments_discarded_witness :
  (select_alignments unit example_aligner "ACG" tt true 1).2
  = spec_discard (slen "ACG") (example_aligner tt ("ACG" ++ "ACG")%string 1) /\
  (select_alignments unit example_aligner "ACG" tt true 1).2
  `sublist_of` example_aligner tt ("ACG" ++ "ACG")%string 1 /\
  (mkAlignment 4 6 "2=" ∈ example_aligner tt ("ACG" ++ "ACG")%string 1 ->
   mkAlignment 4 6 "2=" ∉ (select_alignments unit example_aligner "ACG" tt true 1).2
   <-> ref_start (mkAlignment 4 6 "2=") >= slen "ACG").
Proof.
  destruct (second_half_alignments_discarded 3 2 unit example_aligner "ACG" tt 1)
    as (_ & _ & Hkept & _ & Hsub & _ & Hdrop & _).
  split; [exact Hkept|]. split; [exact Hsub|apply Hdrop].
Defined.

(** C8, as stated, fails for a circular sequence: on [ACG] with the example
    alignments the three that are kept have combined scores that sum to 11,
    and the folded profile [2,3,4] sums to 9, because the fold keeps the
    larger of the two halves at each position and drops the smaller. *)
Lemma circular_fold_loses_score :
  get_one_seq_per_base_scores 3 2 unit example_aligner "ACG" tt true 1
  = Ok [2; 3; 4] /\
  Forall2 (fun a cs => get_alignment_scores 3 2 a = Ok cs)
    (select_alignments unit example_aligner "ACG" tt true 1).2
    [[1; 2; 2; 1]; [1; 1]; [1; 1; 1]] /\
  sum [2; 3; 4] <> sum (sum <$> [[1; 2; 2; 1]; [1; 1]; [1; 1; 1]]).
Proof.
  split; [vm_compute; reflexivity|]. split; [|discriminate].
  repeat constructor.
Qed.

Lemma total_score_additivity_witness :
  get_one_seq_per_base_scores 3 2 unit example_aligner "ACGACG" tt false 1
  = Ok [1; 3; 4; 2; 2; 1] /\
  exists acc css,
    accumulate 3 2 "ACGACG" example_alignments = Ok acc /\
    Forall2 (fun a cs => get_alignment_scores 3 2 a = Ok cs) example_alignments css /\
    sum acc = sum (sum <$> css) /\
    [1; 3; 4; 2; 2; 1] = acc /\ sum [1; 3; 4; 2; 2; 1] = sum (sum <$> css).
Proof.
  assert (get_one_seq_per_base_scores 3 2 unit example_aligner "ACGACG" tt false 1
          = Ok [1; 3; 4; 2; 2; 1]) as Hrun by (vm_compute; reflexivity).
  split; [exact Hrun|].
  apply (total_score_additivity 3 2 unit example_aligner "ACGACG" tt false 1
           [1; 3; 4; 2; 2; 1] Hrun).
Defined.

Lemma ten_matches_ramp_witness :
  1 <= 3 /\ 1 <= 2 /\
  get_alignment_scores 3 2 (mkAlignment 0 10 "10=")
  = Ok [1; 2; 3; 4; 5; 5; 4; 3; 2; 1].
Proof.
  assert (1 <= 3) as Hw by lia. assert (1 <= 2) as Ht by lia.
  split; [exact Hw|]. split; [exact Ht|].
  destruct (ten_matches_ramp 3 2 Hw Ht) as (ec & pf & _ & _ & _ & _ & _ & Hrun).
  exact Hrun.
Defined.

Lemma accumulation_within_bounds_witness :
  0 <= ref_start (mkAlignment 2 5 "1=1I2=") /\
  ref_start (mkAlignment 2 5 "1=1I2=") < ref_end (mkAlignment 2 5 "1=1I2=") /\
  ref_end (mkAlignment 2 5 "1=1I2=") <= len [1; 3; 3; 1; 0; 0] /\
  len [1; 1; 1] = ref_end (mkAlignment 2 5 "1=1I2=") - ref_start (mkAlignment 2 5 "1=1I2=") /\
  (forall j, 0 <= j < len [1; 1; 1] ->
     0 <= ref_start (mkAlignment 2 5 "1=1I2=") + j < len [1; 3; 3; 1; 0; 0] /\
     py_index (length [1; 3; 3; 1; 0; 0]) (ref_start (mkAlignment 2 5 "1=1I2=") + j)
     = Some (Z.to_nat (ref_start (mkAlignment 2 5 "1=1I2=") + j))) /\
  exists pbs',
    for_each (add_score (mkAlignment 2 5 "1=1I2=")) (enumerate [1; 1; 1])
      [1; 3; 3; 1; 0; 0] = Ok pbs' /\
    length pbs' = length [1; 3; 3; 1; 0; 0].
Proof.
  assert (0 <= ref_start (mkAlignment 2 5 "1=1I2=")) as H0 by (simpl; lia).
  assert (ref_start (mkAlignment 2 5 "1=1I2=") < ref_end (mkAlignment 2 5 "1=1I2="))
    as Hlt by (simpl; lia).
  assert (ref_end (mkAlignment 2 5 "1=1I2=") <= len [1; 3; 3; 1; 0; 0])
    as Hend by (vm_compute; discriminate).
  assert (len [1; 1; 1]
          = ref_end (mkAlignment 2 5 "1=1I2=") - ref_start (mkAlignment 2 5 "1=1I2="))
    as Hlen by reflexivity.
  split; [exact H0|]. split; [exact Hlt|]. split; [exact Hend|]. split; [exact Hlen|].
  destruct (accumulation_within_bounds 3 2 (mkAlignment 2 5 "1=1I2=") [1; 1; 1]
              [1; 3; 3; 1; 0; 0] H0 Hlt Hend Hlen)
    as (Hin & (pbs' & Hrun & Hlen' & _) & _ & _).
  split; [exact Hin|]. exists pbs'. split; [exact Hrun|exact Hlen'].
Defined.

(** ** Further properties: across thresholds *)

Lemma spec_mask_antitone (T T' c : Z) : T <= T' -> spec_mask T' c <= spec_mask T c.
Proof.
  intros HT. unfold spec_mask.
  destruct (Z.ltb_spec c T), (Z.ltb_spec c T'); lia.
Qed.

(** X16: on the same expanded CIGAR and window, a higher threshold fails no
    column that a lower one passes: column by column the mask under the
    higher threshold is at most the mask under the lower one, and so is the
    number of failing columns. *)
Theorem higher_threshold_fails_fewer (W T T' : Z) (ec pf pf' : list Z) :
  op_codes ec -> T <= T' ->
  get_pass_fail W T ec = Ok pf -> get_pass_fail W T' ec = Ok pf' ->
  Forall2 (fun x x' => x' <= x) pf pf' /\ sum pf' <= sum pf.
Proof.
  intros Hec HT. rewrite !get_pass_fail_counts by done.
  destruct (np_ones W) as [ones|]; [|done]. cbn [mbind result_bind].
  destruct (np_convolve_same _ ones) as [counts|]; [|done]. cbn [mbind result_bind].
  intros [= <-] [= <-]. clear Hec.
  induction counts as [|c counts [IH1 IH2]]; [split; [constructor|done]|].
  pose proof (spec_mask_antitone T T' c HT).
  cbn [fmap list_fmap]. rewrite !sum_cons. split; [by constructor|lia].
Qed.

(** ** Further properties: concrete cases *)



Lemma pass_fail_outcome_witness :
  get_pass_fail 3 2 [] = Raise ValueError /\
  exists pass_fail,
    get_pass_fail 3 2 [0; 1] = Ok pass_fail /\
    length pass_fail = 3%nat /\ Forall (fun x => x = 0 \/ x = 1) pass_fail.
Proof.
  split.
  - apply (pass_fail_outcome 3 2 []). by right.
  - apply (pass_fail_outcome 3 2 [0; 1]); [lia|discriminate].
Defined.


Lemma all_match_scores_ramp_witness :
  get_alignment_scores 5 3 (mkAlignment 4 11 "7=") = Ok [1; 2; 3; 4; 3; 2; 1].
Proof.
  apply (all_match_scores_ramp 5 3 (mkAlignment 4 11 "7=") 7);
    [lia|lia|lia|reflexivity|reflexivity].
Defined.

Lemma alignment_scores_bounded_witness :
  get_alignment_scores 3 2 (mkAlignment 2 5 "1=1I2=") = Ok [1; 1; 1] /\
  exists ec,
    get_expanded_cigar (mkAlignment 2 5 "1=1I2=") = Ok ec /\
    Forall (fun x => 0 <= x <= (len ec + 1) / 2) [1; 1; 1].
Proof.
  assert (get_alignment_scores 3 2 (mkAlignment 2 5 "1=1I2=") = Ok [1; 1; 1])
    as Hrun by reflexivity.
  split; [exact Hrun|].
  destruct (alignment_scores_bounded 3 2 _ _ Hrun)
    as (ec & _ & _ & _ & Hec & _ & _ & _ & _ & _ & Hall).
  exists ec. split; [exact Hec|exact Hall].
Defined.

Lemma accumulation_adds_at_offset_witness :
  exists pbs',
    for_each (add_score (mkAlignment 2 5 "1=1I2=")) (enumerate [1; 1; 1])
      [1; 3; 3; 1; 0; 0] = Ok pbs' /\
    pbs' !! 3%nat = Some 2.
Proof.
  destruct (accumulation_adds_at_offset (mkAlignment 2 5 "1=1I2=") [1; 1; 1]
              [1; 3; 3; 1; 0; 0]) as (pbs' & Hrun & _ & Hin & _).
  { simpl. lia. }
  { vm_compute. discriminate. }
  exists pbs'. split; [exact Hrun|].
  destruct (Hin 1%nat 1 eq_refl) as (old & Hold & Hnew).
  simpl in Hold. injection Hold as <-. exact Hnew.
Defined.

Lemma negative_ref_start_wraps_witness :
  exists pbs',
    for_each (add_score (mkAlignment (-2) 0 "2=")) (enumerate [1; 1])
      [5; 5; 5; 5] = Ok pbs' /\
    pbs' !! 2%nat = Some 6.
Proof.
  destruct (negative_ref_start_wraps (mkAlignment (-2) 0 "2=") [1; 1] [5; 5; 5; 5])
    as (pbs' & Hrun & _ & Hin).
  { vm_compute. discriminate. }
  { vm_compute. discriminate. }
  exists pbs'. split; [exact Hrun|].
  destruct (Hin 0%nat 1 eq_refl) as (old & Hold & Hnew).
  simpl in Hold. injection Hold as <-. exact Hnew.
Defined.

Lemma accumulation_overrun_raises_witness :
  for_each (add_score (mkAlignment 2 5 "3=")) (enumerate [1; 1; 1]) [0; 0; 0; 0]
  = Raise IndexError.
Proof.
  apply (accumulation_overrun_raises (mkAlignment 2 5 "3=") [1; 1; 1] [0; 0; 0; 0]);
    [discriminate|simpl; lia|vm_compute; reflexivity].
Defined.

Lemma accumulation_order_independent_witness :
  example_alignments ≡ₚ reverse example_alignments /\
  accumulate 3 2 "ACGACG" example_alignments = Ok [1; 3; 4; 2; 2; 1] /\
  accumulate 3 2 "ACGACG" (reverse example_alignments) = Ok [1; 3; 4; 2; 2; 1].
Proof.
  assert (example_alignments ≡ₚ reverse example_alignments) as Hperm
    by (symmetry; apply reverse_Permutation).
  assert (accumulate 3 2 "ACGACG" example_alignments = Ok [1; 3; 4; 2; 2; 1])
    as Hacc by (vm_compute; reflexivity).
  split; [exact Hperm|]. split; [exact Hacc|].
  exact (accumulation_order_independent 3 2 "ACGACG" _ _ _ Hperm Hacc).
Defined.

Lemma uncovered_positions_score_zero_witness :
  accumulate 3 2 "ACGACGA" example_alignments = Ok [1; 3; 4; 2; 2; 1; 0] /\
  [1; 3; 4; 2; 2; 1; 0] !! 6%nat = Some 0.
Proof.
  assert (accumulate 3 2 "ACGACGA" example_alignments = Ok [1; 3; 4; 2; 2; 1; 0])
    as Hacc by (vm_compute; reflexivity).
  split; [exact Hacc|].
  apply (uncovered_positions_score_zero 3 2 unit example_aligner "ACGACGA"
           example_alignments [1; 3; 4; 2; 2; 1; 0] 6 Hacc).
  - repeat constructor; simpl; lia.
  - vm_compute. reflexivity.
  - intros a Ha. unfold example_alignments in Ha.
    repeat (apply elem_of_cons in Ha as [->|Ha]; [simpl; lia|]).
    by apply elem_of_nil in Ha.
Defined.

Lemma circular_fold_drops_minima_witness :
  get_one_seq_per_base_scores 3 2 unit example_aligner "ACG" tt true 1
  = Ok [2; 3; 4] /\
  exists acc css,
    accumulate 3 2 ("ACG" ++ "ACG")
      (select_alignments unit example_aligner "ACG" tt true 1).2 = Ok acc /\
    Forall2 (fun a cs => get_alignment_scores 3 2 a = Ok cs)
      (select_alignments unit example_aligner "ACG" tt true 1).2 css /\
    sum [2; 3; 4]
    = sum (sum <$> css)
      - sum (zip_with Z.min (take (String.length "ACG") acc)
               (drop (String.length "ACG") acc)).
Proof.
  assert (get_one_seq_per_base_scores 3 2 unit example_aligner "ACG" tt true 1
          = Ok [2; 3; 4]) as Hrun by (vm_compute; reflexivity).
  split; [exact Hrun|].
  exact (circular_fold_drops_minima 3 2 unit example_aligner "ACG" tt 1 _ Hrun).
Defined.

Lemma circular_profile_within_first_copy_witness :
  accumulate 3 2 "ACGACG"
    (select_alignments unit example_aligner "ACGACG" tt true 1).2
  = Ok [1; 3; 4; 2; 2; 1] /\
  get_one_seq_per_base_scores 3 2 unit example_aligner "ACGACG" tt true 1
  = Ok [1; 3; 4; 2; 2; 1].
Proof.
  assert (accumulate 3 2 "ACGACG"
            (select_alignments unit example_aligner "ACGACG" tt true 1).2
          = Ok [1; 3; 4; 2; 2; 1]) as Hacc by (vm_compute; reflexivity).
  split; [exact Hacc|].
  apply (circular_profile_within_first_copy 3 2 unit example_aligner "ACGACG" tt 1
           _ Hacc).
  vm_compute. repeat constructor; discriminate.
Defined.

Lemma per_base_scores_of_every_sequence_witness :
  exists d,
    get_per_base_scores 3 2 unit example_aligner example_plot
      [("a", "ACGACG"); ("b", "ACGACGA")]%string tt false 1 true tt = Ok d /\
    (exists prof,
       d !! "b"%string = Some prof /\
       get_one_seq_per_base_scores 3 2 unit example_aligner "ACGACGA" tt false 1
       = Ok prof /\
       len prof = slen "ACGACGA" /\ nonneg prof) /\
    d !! "c"%string = None.
Proof.
  destruct (get_per_base_scores 3 2 unit example_aligner example_plot
              [("a", "ACGACG"); ("b", "ACGACGA")]%string tt false 1 true tt)
    as [d|e] eqn:Hrun; [|vm_compute in Hrun; discriminate Hrun].
  exists d. split; [reflexivity|].
  assert (NoDup [("a", "ACGACG"); ("b", "ACGACGA")]%string.*1) as Hnd.
  { apply NoDup_cons_2; [|apply NoDup_singleton].
    intros Hin%list_elem_of_singleton. discriminate Hin. }
  destruct (per_base_scores_of_every_sequence 3 2 unit example_aligner example_plot
              _ tt false 1 true tt d Hrun Hnd) as [Hin Hout].
  split.
  - apply (Hin "b"%string "ACGACGA"%string). right. left.
  - apply Hout. intros Hin'.
    repeat (apply elem_of_cons in Hin' as [Heq|Hin']; [discriminate Heq|]).
    by apply elem_of_nil in Hin'.
Defined.

Lemma per_base_scores_failure_aborts_witness :
  get_one_seq_per_base_scores 3 2 unit example_aligner "AC" tt false 1
  = Raise IndexError /\
  get_per_base_scores 3 2 unit example_aligner example_plot
    [("a", "ACGACG"); ("b", "AC"); ("c", "ACGACG")]%string tt false 1 true tt
  = Raise IndexError.
Proof.
  assert (get_one_seq_per_base_scores 3 2 unit example_aligner "AC" tt false 1
          = Raise IndexError) as Hfail by (vm_compute; reflexivity).
  split; [exact Hfail|].
  destruct (get_per_base_scores 3 2 unit example_aligner example_plot
              [("a", "ACGACG")]%string tt false 1 true tt)
    as [d|e] eqn:Hpre; [|vm_compute in Hpre; discriminate Hpre].
  apply (per_base_scores_failure_aborts 3 2 unit example_aligner example_plot
           [("a", "ACGACG")]%string [("c", "ACGACG")]%string "b"%string "AC"%string
           tt false 1 true tt d IndexError Hpre).
  left. exact Hfail.
Defined.

Lemma higher_threshold_fails_fewer_witness :
  op_codes [0; 1; 1; 0; 1; 0] /\ 2 <= 3 /\
  get_pass_fail 3 2 [0; 1; 1; 0; 1; 0] = Ok [0; 1; 1; 1; 0; 0] /\
  get_pass_fail 3 3 [0; 1; 1; 0; 1; 0] = Ok [0; 0; 0; 0; 0; 0] /\
  sum [0; 0; 0; 0; 0; 0] <= sum [0; 1; 1; 1; 0; 0].
Proof.
  assert (op_codes [0; 1; 1; 0; 1; 0]) as Hec by (repeat constructor; lia).
  assert (2 <= 3) as HT by lia.
  assert (get_pass_fail 3 2 [0; 1; 1; 0; 1; 0] = Ok [0; 1; 1; 1; 0; 0]) as H2
    by reflexivity.
  assert (get_pass_fail 3 3 [0; 1; 1; 0; 1; 0] = Ok [0; 0; 0; 0; 0; 0]) as H3
    by reflexivity.
  split; [exact Hec|]. split; [exact HT|]. split; [exact H2|]. split; [exact H3|].
  exact (proj2 (higher_threshold_fails_fewer 3 2 3 _ _ _ Hec HT H2 H3)).
Defined.
